(** * Verification of [parser/parsers/parse_utils.py]

    A shallow embedding of the table-extraction helpers of
    osm-legal-default-speeds: the span-aware row helper
    ([TableRowHelper]), the two table extractors, the jurisdiction code
    resolver and the placeholder validator, followed by the properties
    proved about them.

    Conventions of the embedding:
    - a Python [str] is a [string]; every character is read as the code
      point of the same number (0..255);
    - a Python exception is a value of [exn], a call that may raise has
      result type [res];
    - the [dict] used by the row helper is a [gmap nat _]; dictionaries whose
      iteration order reaches the output are association lists kept in
      insertion order;
    - the bs4 tree is the inductive type [node]; the table handed in by the
      caller is a mutable object, so the extractors also return the state
      this object is left in. *)

From Stdlib Require Import ZArith Ascii Lia.
From Stdlib Require String.
From stdpp Require Import base option list gmap strings fin_maps.

#[local] Open Scope Z_scope.
#[local] Set Warnings "-register-all".

(** ** Exceptions and fallible results *)

Inductive exn : Type :=
  | ValueError
  | KeyError (k : nat)
  | IndexError
  | NameError (name : string).

Inductive res (A : Type) : Type :=
  | Ok (a : A)
  | Raise (e : exn).
Arguments Ok {A} a.
Arguments Raise {A} e.

#[global] Instance res_ret : MRet res := λ A a, Ok a.
#[global] Instance res_bind : MBind res := λ A B k r,
  match r with
  | Ok a => k a
  | Raise e => Raise e
  end.
#[global] Instance res_fmap : FMap res := λ A B f r,
  match r with
  | Ok a => Ok (f a)
  | Raise e => Raise e
  end.

(** ** Python string primitives *)

Module Py.

(** [str.isspace] on one character, for code points below 256. *)
Definition is_space (c : ascii) : bool :=
  let n := nat_of_ascii c in
  ((9 <=? n) && (n <=? 13) || (28 <=? n) && (n <=? 32)
   || (n =? 133) || (n =? 160))%nat.

Fixpoint lstrip (s : string) : string :=
  match s with
  | String c s' => if is_space c then lstrip s' else s
  | EmptyString => EmptyString
  end.

(** [rstrip] drops the trailing run of white space: a character is kept
    when it is not a space or when something is kept after it. *)
Fixpoint rstrip (s : string) : string :=
  match s with
  | String c s' =>
      match rstrip s' with
      | EmptyString => if is_space c then EmptyString else String c EmptyString
      | r => String c r
      end
  | EmptyString => EmptyString
  end.

(** [s.strip()] *)
Definition strip (s : string) : string := rstrip (lstrip s).

(** [s.split(sep)] for a one-character separator: always at least one
    piece, an empty piece between two adjacent separators. *)
Fixpoint split (sep : ascii) (s : string) : list string :=
  match s with
  | EmptyString => [EmptyString]
  | String c s' =>
      let r := split sep s' in
      if Ascii.eqb c sep then EmptyString :: r
      else match r with
           | p :: ps => String c p :: ps
           | [] => [String c EmptyString]
           end
  end.

(** [sep.join(parts)] *)
Fixpoint join (sep : string) (parts : list string) : string :=
  match parts with
  | [] => EmptyString
  | [p] => p
  | p :: ps => p +:+ sep +:+ join sep ps
  end.

(** [s.startswith(p)] *)
Fixpoint startswith (p s : string) : bool :=
  match p, s with
  | EmptyString, _ => true
  | String a p', String b s' => Ascii.eqb a b && startswith p' s'
  | String _ _, EmptyString => false
  end.

Fixpoint drop (n : nat) (s : string) : string :=
  match n, s with
  | O, _ => s
  | S n', String _ s' => drop n' s'
  | S _, EmptyString => EmptyString
  end.

Fixpoint take (n : nat) (s : string) : string :=
  match n, s with
  | S n', String c s' => String c (take n' s')
  | _, _ => EmptyString
  end.

(** [s.find(old)]: index of the first occurrence, [None] for -1. *)
Fixpoint find (old s : string) : option nat :=
  if startswith old s then Some O
  else match s with
       | EmptyString => None
       | String _ s' => S <$> find old s'
       end.

(** [old in s] *)
Definition contains (old s : string) : bool :=
  match find old s with Some _ => true | None => false end.

(** [s.replace(old, new, count)] for a non-empty [old]; [count = None]
    is the unlimited default.  Occurrences are taken left to right and do
    not overlap; the scan resumes behind the replaced occurrence, so the
    inserted text is never searched.  [fuel] bounds the number of scan
    steps, [String.length s] of them always suffice. *)
Fixpoint replace_from (fuel : nat) (old new : string) (count : option nat)
    (s : string) : string :=
  match fuel with
  | O => s
  | S fuel' =>
      match count with
      | Some O => s
      | _ =>
          match s with
          | EmptyString => EmptyString
          | String c s' =>
              if startswith old s
              then new +:+ replace_from fuel' old new (pred <$> count)
                             (drop (String.length old) s)
              else String c (replace_from fuel' old new count s')
          end
      end
  end.

Definition replace (old new : string) (count : option nat) (s : string)
    : string :=
  replace_from (String.length s) old new count s.

Definition is_digit (c : ascii) : bool :=
  let n := nat_of_ascii c in ((48 <=? n) && (n <=? 57))%nat.

Definition digit_value (c : ascii) : Z := Z.of_nat (nat_of_ascii c) - 48.

(** The digit part of an integer literal: decimal digits, single
    underscores allowed between two digits. *)
Fixpoint parse_digits (after_digit : bool) (acc : Z) (s : string)
    : option Z :=
  match s with
  | EmptyString => if after_digit then Some acc else None
  | String c s' =>
      if is_digit c then parse_digits true (10 * acc + digit_value c) s'
      else if Ascii.eqb c "_" then
        if after_digit then parse_digits false acc s' else None
      else None
  end.

(** The blanks [int] skips around a literal: the ASCII blanks, and of the
    code points from 128 to 255 those that are white space.  The code
    points 28 to 31, which [str.strip] removes, are no blanks here. *)
Definition is_int_space (c : ascii) : bool :=
  let n := nat_of_ascii c in
  ((9 <=? n) && (n <=? 13) || (n =? 32) || (n =? 133) || (n =? 160))%nat.

Fixpoint int_lstrip (s : string) : string :=
  match s with
  | String c s' => if is_int_space c then int_lstrip s' else s
  | EmptyString => EmptyString
  end.

Fixpoint int_rstrip (s : string) : string :=
  match s with
  | String c s' =>
      match int_rstrip s' with
      | EmptyString =>
          if is_int_space c then EmptyString else String c EmptyString
      | r => String c r
      end
  | EmptyString => EmptyString
  end.

(** The number of digit characters of a literal; underscores do not
    count. *)
Fixpoint count_digits (s : string) : nat :=
  match s with
  | EmptyString => O
  | String c s' => if is_digit c then S (count_digits s') else count_digits s'
  end.

(** [sys.get_int_max_str_digits()], the interpreter's default. *)
Definition max_str_digits : nat := 4300.

(** [int(s)] for a string argument: surrounding blanks, an optional sign,
    then the digits; anything else is a [ValueError], and so is a literal
    of more than [max_str_digits] digits. *)
Definition int (s : string) : res Z :=
  let body := int_rstrip (int_lstrip s) in
  let '(neg, digits) :=
    match body with
    | String "-" d => (true, d)
    | String "+" d => (false, d)
    | d => (false, d)
    end in
  match parse_digits false 0 digits with
  | Some n =>
      if (max_str_digits <? count_digits digits)%nat then Raise ValueError
      else Ok (if neg : bool then - n else n)
  | None => Raise ValueError
  end.

End Py.


(** ** The document tree

    What the code uses of a bs4 tree: element names, attributes, children
    and text.  [Text] is a [NavigableString], [Tag] a [bs4.element.Tag]. *)

Inductive node : Type :=
  | Text (s : string)
  | Tag (name : string) (attrs : list (string * string)) (children : list node).

Module Dom.

(** [tag.descendants]: every node below [n], in document order. *)
Fixpoint descendants (n : node) : list node :=
  match n with
  | Text _ => []
  | Tag _ _ cs =>
      (fix go (l : list node) : list node :=
         match l with
         | [] => []
         | c :: l' => c :: descendants c ++ go l'
         end) cs
  end.

Definition descendants_of_list (l : list node) : list node :=
  flat_map (λ c, c :: descendants c) l.

Definition is_tag (n : node) : bool :=
  match n with Tag _ _ _ => true | Text _ => false end.

(** [tag.name == s]; a string node never matches. *)
Definition named (s : string) (n : node) : bool :=
  match n with
  | Tag nm _ _ => String.eqb nm s
  | Text _ => false
  end.

(** [tag.find_all(f)] for a function [f] over tags, and
    [tag.find_all("name")]: the matching descendant tags in document
    order. *)
Definition find_all (f : node → bool) (n : node) : list node :=
  filter (λ d, is_tag d && f d = true) (descendants n).

Definition find_all_named (s : string) (n : node) : list node :=
  find_all (named s) n.

Fixpoint assoc (k : string) (l : list (string * string)) : option string :=
  match l with
  | [] => None
  | (k', v) :: l' => if String.eqb k' k then Some v else assoc k l'
  end.

(** [tag.get(key)]: [None] when the attribute is missing. *)
Definition get (n : node) (key : string) : option string :=
  match n with
  | Tag _ a _ => assoc key a
  | Text _ => None
  end.

(** [int(tag.get(key, 1))] *)
Definition int_attr (n : node) (key : string) : res Z :=
  match get n key with
  | None => Ok 1
  | Some s => Py.int s
  end.

(** The strings below a tag, in document order. *)
Definition strings (n : node) : list string :=
  omap (λ d, match d with Text s => Some s | Tag _ _ _ => None end)
       (descendants n).

(** [tag.get_text(sep, strip=True)]: every string is stripped, the empty
    ones are dropped, the rest joined by [sep]. *)
Definition get_text (sep : string) (n : node) : string :=
  Py.join sep
    (filter (λ s, s ≠ EmptyString) (Py.strip <$> strings n)).

(** The net effect on the tree rooted at [n] of
    [for t in n.find_all(f): t.decompose()]: the list of matches is taken
    first, then every match is cut out of the tree together with all it
    contains (a match below another match is already gone when its turn
    comes).  The root is not a descendant of itself and stays. *)
Fixpoint decompose_all (f : node → bool) (n : node) : node :=
  match n with
  | Text s => Text s
  | Tag nm a cs =>
      Tag nm a
        ((fix go (l : list node) : list node :=
            match l with
            | [] => []
            | c :: l' =>
                if is_tag c && f c then go l'
                else decompose_all f c :: go l'
            end) cs)
  end.

End Dom.

(** ** [TableRowHelper] *)

Module TableRowHelper.

(** [td_cache]: column index ↦ (rows remaining, cell). *)
Abbreviation cache := (gmap nat (Z * node)).

(** [__init__] *)
Definition init : cache := ∅.

(** One turn of the first loop of [set_tds] for key [k]. *)
Definition expire_key (c : cache) (k : nat) : cache :=
  match c !! k with
  | Some (remaining, value) =>
      if remaining =? 1 then delete k c
      else <[k := (remaining - 1, value)]> c
  | None => c
  end.

(** The first loop of [set_tds], over a snapshot of the keys. *)
Definition expire (c : cache) : cache :=
  foldl expire_key c (elements (dom c)).

(** [while col_idx in self.td_cache: col_idx += 1]; the loop leaves at
    most [size c] occupied columns behind, which bounds its turns. *)
Fixpoint skip_from (fuel : nat) (c : cache) (col_idx : nat) : nat :=
  match fuel with
  | O => col_idx
  | S fuel' =>
      match c !! col_idx with
      | Some _ => skip_from fuel' c (S col_idx)
      | None => col_idx
      end
  end.

Definition skip (c : cache) (col_idx : nat) : nat :=
  skip_from (size c) c col_idx.

(** [for _ in range(n): td_cache[col_idx] = (rowspan, td); col_idx += 1] *)
Fixpoint fill (n : nat) (rowspan : Z) (td : node) (c : cache)
    (col_idx : nat) : cache * nat :=
  match n with
  | O => (c, col_idx)
  | S n' => fill n' rowspan td (<[col_idx := (rowspan, td)]> c) (S col_idx)
  end.

(** The body of the second loop of [set_tds] for one cell. *)
Definition place_td (td : node) (c : cache) (col_idx : nat)
    : res (cache * nat) :=
  rowspan ← Dom.int_attr td "rowspan";
  let col_idx := skip c col_idx in
  colspan ← Dom.int_attr td "colspan";
  mret (fill (Z.to_nat colspan) rowspan td c col_idx).

(** The second loop of [set_tds]. *)
Fixpoint insert_tds (tds : list node) (c : cache) (col_idx : nat)
    : res (cache * nat) :=
  match tds with
  | [] => mret (c, col_idx)
  | td :: tds' =>
      '(c', col_idx') ← place_td td c col_idx;
      insert_tds tds' c' col_idx'
  end.

(** [set_tds] *)
Definition set_tds (c : cache) (tds : list node) : res cache :=
  fst <$> insert_tds tds (expire c) 0%nat.

(** [get_td] *)
Definition get_td (c : cache) (idx : nat) : res node :=
  match c !! idx with
  | Some (_, td) => Ok td
  | None => Raise (KeyError idx)
  end.

End TableRowHelper.

(** [is_uninteresting]: [tag.name in {"sup", "img"}] *)
Definition is_uninteresting (tag : node) : bool :=
  Dom.named "sup" tag || Dom.named "img" tag.

(** ** Insertion-ordered dictionaries

    A Python [dict] whose iteration order matters: assignment to a key that
    is present keeps its position, a new key goes to the end. *)

Module Dict.

Fixpoint get {V} (k : string) (d : list (string * V)) : option V :=
  match d with
  | [] => None
  | (k', v) :: d' => if String.eqb k' k then Some v else get k d'
  end.

(** [k in d] *)
Definition contains {V} (k : string) (d : list (string * V)) : bool :=
  match get k d with Some _ => true | None => false end.

(** [d[k] = v] *)
Fixpoint set {V} (k : string) (v : V) (d : list (string * V))
    : list (string * V) :=
  match d with
  | [] => [(k, v)]
  | (k', v') :: d' =>
      if String.eqb k' k then (k', v) :: d' else (k', v') :: set k v d'
  end.

End Dict.

(** ** [parse_road_types_table] *)

(** A road class of the road-type table: a dictionary with the keys
    [filter], [fuzzyFilter] and [relationFilter], each optional. *)
Abbreviation filters := (list (string * string)).
Abbreviation road_types := (list (string * filters)).

Definition truthy (s : string) : bool :=
  match s with EmptyString => false | String _ _ => true end.

(** The body of the row loop of [parse_road_types_table]; the loop state is
    [result] together with the helper's cache. *)
Definition road_types_row (st : road_types * TableRowHelper.cache)
    (row : node) : res (road_types * TableRowHelper.cache) :=
  let '(result, cache) := st in
  let tds := Dom.find_all_named "td" row in
  cache ← TableRowHelper.set_tds cache tds;
  match tds with
  | [] => mret (result, cache)
  | _ :: _ =>
      td0 ← TableRowHelper.get_td cache 0;
      let road_type := Dom.get_text "" td0 in
      td1 ← TableRowHelper.get_td cache 1;
      let tags_filter := Dom.get_text " " td1 in
      td2 ← TableRowHelper.get_td cache 2;
      let fuzzy_tags_filter := Dom.get_text " " td2 in
      td3 ← TableRowHelper.get_td cache 3;
      let relation_tags_filter := Dom.get_text " " td3 in
      let road_class : filters := [] in
      let road_class :=
        if truthy tags_filter
        then Dict.set "filter" tags_filter road_class else road_class in
      let road_class :=
        if truthy fuzzy_tags_filter
        then Dict.set "fuzzyFilter" fuzzy_tags_filter road_class
        else road_class in
      let road_class :=
        if truthy relation_tags_filter
        then Dict.set "relationFilter" relation_tags_filter road_class
        else road_class in
      mret (Dict.set road_type road_class result, cache)
  end.

(** A [for] loop whose body may raise. *)
Fixpoint for_each {S A} (body : S → A → res S) (st : S) (l : list A)
    : res S :=
  match l with
  | [] => mret st
  | a :: l' => st' ← body st a; for_each body st' l'
  end.

(** [parse_road_types_table(table)].  The second component is the state in
    which the call leaves the caller's [table] object: the junk tags are
    decomposed on [table] itself, and the rows are then read from it. *)
Definition parse_road_types_table (table : node) : res road_types * node :=
  let table := Dom.decompose_all is_uninteresting table in
  (fst <$> for_each road_types_row ([], TableRowHelper.init)
             (Dom.find_all_named "tr" table),
   table).

(** ** [get_country_code] *)

(** [country_codes] *)
Definition country_codes : list (string * string) :=
  [ ("Brunei", "BN");
    ("Belgium:Brussels-Capital Region", "BE-BRU");
    ("Belgium:Flanders", "BE-VLG");
    ("Belgium:Wallonia", "BE-WAL");
    ("Democratic Republic of the Congo", "CD");
    ("Kosovo", "XK");
    ("Micronesia", "FM");
    ("Micronesia:Kosrae", "FM-KSA");
    ("Micronesia:Pohnpei", "FM-PNI");
    ("Micronesia:Chuuk", "FM-TRK");
    ("Micronesia:Yap", "FM-YAP");
    ("Netherlands:Bonaire", "NL-BQ1");
    ("Netherlands:Saba", "NL-BQ2");
    ("Netherlands:Sint Eustatius", "NL-BQ3");
    ("Palestine", "PS");
    ("Pitcairn Islands", "PN");
    ("Russia", "RU");
    ("Turkey", "TR");
    ("United Kingdom:Scotland", "GB-SCT") ].

(** A subdivision of the reference database. *)
Record subdivision : Type := Subdivision {
  sub_name : string;
  sub_code : string
}.

(** The part of [pycountry] the resolver calls.  [countries_lookup n] is
    [pycountry.countries.lookup(n).alpha_2], [None] when the call raises;
    [subdivisions_get c] is what iterating over
    [pycountry.subdivisions.get(country_code=c)] yields, [None] when the
    call or the iteration raises. *)
Record pycountry : Type := Pycountry {
  countries_lookup : string → option string;
  subdivisions_get : string → option (list subdivision)
}.

(** [get_country_code(name)]; [None] is Python's [None], which both
    [return] without a value and the [except] branch produce. *)
Definition get_country_code (db : pycountry) (name : string)
    : option string :=
  match Dict.get name country_codes with
  | Some code => Some code
  | None =>
      let country_and_subdivision_name := Py.split ":" name in
      let country_name :=
        Py.strip (nth 0 country_and_subdivision_name EmptyString) in
      match countries_lookup db country_name with
      | None => None
      | Some country_code =>
          if (1 <? length country_and_subdivision_name)%nat then
            let subdivision_name :=
              Py.strip (nth 1 country_and_subdivision_name EmptyString) in
            match subdivisions_get db country_code with
            | None => None
            | Some subdivisions =>
                sub_code <$>
                  List.find (λ s, String.eqb (sub_name s) subdivision_name)
                            subdivisions
            end
          else Some country_code
      end
  end.

(** ** [parse_speed_table] *)

(** An entry of the speed table: [{'tags': ..., 'name': ...}], the key
    [name] being optional. *)
Record road_class : Type := RoadClass {
  rc_tags : list (string * string);
  rc_name : option string
}.

(** The loop state of [parse_speed_table]. *)
Record speed_state : Type := SpeedState {
  column_names : list string;
  result : list (string * list road_class);
  warnings : list string;
  td_cache : TableRowHelper.cache
}.

(** What [parse_speed_table] returns. *)
Record speed_table : Type := SpeedTable {
  speedLimitsByCountryCode : list (string * list road_class);
  table_warnings : list string
}.

(** The first header row, lines 95-98: every header text is appended once
    per column it spans. *)
Definition init_names (th_tags : list node) : res (list string) :=
  for_each (λ names th,
      let th_text := Dom.get_text "" th in
      n ← Dom.int_attr th "colspan";
      mret (names ++ replicate (Z.to_nat n) th_text))
    [] th_tags.

(** [for j in range(n): column_names[pos + j] = th_text], written with the
    running position [pos + j]; assignment past the end of a list raises. *)
Fixpoint assign_run (n : nat) (pos : nat) (th_text : string)
    (names : list string) : res (list string) :=
  match n with
  | O => mret names
  | S n' =>
      if (pos <? length names)%nat
      then assign_run n' (S pos) th_text (<[pos := th_text]> names)
      else Raise IndexError
  end.

(** The body of the loop of lines 100-104 for the pair [(i, th)]. *)
Definition revise_th (names : list string) (ith : nat * node)
    : res (list string) :=
  let '(i, th) := ith in
  let th_text := Dom.get_text "" th in
  if truthy th_text then
    n ← Dom.int_attr th "colspan";
    assign_run (Z.to_nat n) i th_text names
  else mret names.

(** [enumerate(l)] *)
Definition enumerate {A} (l : list A) : list (nat * A) := imap pair l.

(** A later header row, lines 100-104. *)
Definition revise_names (names : list string) (th_tags : list node)
    : res (list string) :=
  for_each revise_th names (enumerate th_tags).

(** Lines 92-104. *)
Definition header_names (names : list string) (th_tags : list node)
    : res (list string) :=
  match th_tags with
  | [] => mret names
  | _ :: _ =>
      match names with
      | [] => init_names th_tags
      | _ :: _ => revise_names names th_tags
      end
  end.

(** Lines 132-134: the key under which a parsed tag is stored in a column
    of the given vehicle type. *)
Definition rewrite_key (vehicle_type key : string) : string :=
  if String.eqb vehicle_type "(default)" then key
  else
    let key :=
      Py.replace "maxspeed" ("maxspeed:" +:+ vehicle_type) (Some 1%nat) key in
    Py.replace "access" vehicle_type None key.

(** Lines 131-135. *)
Definition merge_speeds (vehicle_type : string)
    (parsed_speeds road_tags : list (string * string))
    : list (string * string) :=
  foldl (λ tags kv, Dict.set (rewrite_key vehicle_type kv.1) kv.2 tags)
        road_tags parsed_speeds.

(** The names bound while the body of [parse_speed_table] runs: its
    parameters and local variables, and the names of the module. *)
Definition parse_speed_table_locals : list string :=
  [ "table"; "speed_parse_func"; "column_names"; "result"; "warnings";
    "table_row_helper"; "junk_tag"; "row"; "th_tags"; "th"; "th_text"; "_";
    "i"; "j"; "tds"; "country"; "country_code"; "road_type"; "road_tags";
    "col_idx"; "td"; "speeds"; "vehicle_type"; "parsed_speeds"; "key";
    "value"; "road_class" ].

Definition module_names : list string :=
  [ "finditer"; "element"; "Lark"; "pycountry"; "SPEED_GRAMMAR"; "parser";
    "ParseError"; "TableRowHelper"; "is_uninteresting";
    "parse_road_types_table"; "parse_speed_table"; "get_country_code";
    "country_codes"; "validate_road_types";
    "validate_road_types_in_speed_table" ].

(** The body of the column loop, lines 120-135.  [speed_parse_func s] is
    [None] when the call raises an [Exception].  The handler of line 127
    sets [parsed_speeds = {}] and then builds the argument of
    [warnings.append] from [country_and_subdivision_name]; that name is a
    local of [get_country_code] and is bound neither in this function nor
    in the module, so reading it raises [NameError] inside the handler,
    before anything is appended. *)
Definition speed_cell (speed_parse_func : string → option (list (string * string)))
    (cache : TableRowHelper.cache) (names : list string)
    (road_tags : list (string * string)) (col_idx : nat)
    : res (list (string * string)) :=
  td ← TableRowHelper.get_td cache col_idx;
  let speeds := Dom.get_text "" td in
  if truthy speeds then
    match names !! col_idx with
    | None => Raise IndexError
    | Some vehicle_type =>
        match speed_parse_func speeds with
        | Some parsed_speeds =>
            mret (merge_speeds vehicle_type parsed_speeds road_tags)
        | None => Raise (NameError "country_and_subdivision_name")
        end
    end
  else mret road_tags.

(** [result[country_code].append(road_class)], after lines 137-138 have
    made sure the key exists. *)
Definition append_entry (country_code : string) (rc : road_class)
    (result : list (string * list road_class))
    : list (string * list road_class) :=
  let result :=
    if Dict.contains country_code result then result
    else Dict.set country_code [] result in
  match Dict.get country_code result with
  | Some l => Dict.set country_code (l ++ [rc]) result
  | None => result
  end.

(** The body of the row loop, lines 91-144. *)
Definition speed_row (db : pycountry)
    (speed_parse_func : string → option (list (string * string)))
    (st : speed_state) (row : node) : res speed_state :=
  let th_tags := Dom.find_all_named "th" row in
  names ← header_names (column_names st) th_tags;
  let tds := Dom.find_all_named "td" row in
  cache ← TableRowHelper.set_tds (td_cache st) tds;
  match tds with
  | [] => mret (SpeedState names (result st) (warnings st) cache)
  | _ :: _ =>
      td0 ← TableRowHelper.get_td cache 0;
      let country := Dom.get_text "" td0 in
      match get_country_code db country with
      | None | Some EmptyString =>
          mret (SpeedState names (result st)
                  (warnings st ++ [country +:+ ": Unknown country / subdivision"])
                  cache)
      | Some country_code =>
          td1 ← TableRowHelper.get_td cache 1;
          let road_type := Dom.get_text "" td1 in
          road_tags ← for_each (speed_cell speed_parse_func cache names) []
                        (seq 2 (length names - 2));
          let rc := RoadClass road_tags
                      (if truthy road_type then Some road_type else None) in
          mret (SpeedState names (append_entry country_code rc (result st))
                  (warnings st) cache)
      end
  end.

(** [parse_speed_table(table, speed_parse_func)]; as for the road-type
    table, the second component is the state the caller's [table] object
    is left in. *)
Definition parse_speed_table (db : pycountry)
    (speed_parse_func : string → option (list (string * string)))
    (table : node) : res speed_table * node :=
  let table := Dom.decompose_all is_uninteresting table in
  ((λ st, SpeedTable (result st) (warnings st)) <$>
     for_each (speed_row db speed_parse_func)
       (SpeedState [] [] [] TableRowHelper.init)
       (Dom.find_all_named "tr" table),
   table).

(** ** [validate_road_types] *)

Module Re.

Definition newline : ascii := ascii_of_nat 10.

(** [.*?}] anchored at the start of [s]: the shortest run of characters
    other than newline that is followed by a closing brace.  Returns the
    run and what follows the brace. *)
Fixpoint lazy_run (s : string) : option (string * string) :=
  match s with
  | EmptyString => None
  | String c s' =>
      if Ascii.eqb c "}" then Some (EmptyString, s')
      else if Ascii.eqb c newline then None
      else (λ m, (String c m.1, m.2)) <$> lazy_run s'
  end.

(** [{.*?}] anchored at the start of [s]. *)
Definition match_braces (s : string) : option (string * string) :=
  match s with
  | String c s' => if Ascii.eqb c "{" then lazy_run s' else None
  | EmptyString => None
  end.

(** [[m.group(0)[1:-1] for m in finditer("{.*?}", s)]]: the leftmost match
    is taken, the search resumes behind it; where no match starts, it
    resumes one character further.  [fuel] bounds the scan steps. *)
Fixpoint finditer_from (fuel : nat) (s : string) : list string :=
  match fuel with
  | O => []
  | S fuel' =>
      match s with
      | EmptyString => []
      | String _ s' =>
          match match_braces s with
          | Some (placeholder, rest) => placeholder :: finditer_from fuel' rest
          | None => finditer_from fuel' s'
          end
      end
  end.

Definition placeholders (s : string) : list string :=
  finditer_from (String.length s) s.

End Re.

(** Computations that read and write one object of type [S]. *)
Definition State (S A : Type) : Type := S → A * S.

Definition st_ret {S A} (a : A) : State S A := λ s, (a, s).

Definition st_bind {S A B} (m : State S A) (k : A → State S B) : State S B :=
  λ s, let '(a, s') := m s in k a s'.

(** A [for] loop in [State]. *)
Fixpoint st_for {S A B} (body : B → A → State S B) (acc : B) (l : list A)
    : State S B :=
  match l with
  | [] => st_ret acc
  | a :: l' => st_bind (body acc a) (λ acc', st_for body acc' l')
  end.

(** The two operations [validate_road_types] performs on its argument:
    [road_types.items()] and [placeholder in road_types]. *)
Definition dict_items {V} : State (list (string * V)) (list (string * V)) :=
  λ d, (d, d).

Definition dict_contains {V} (k : string) : State (list (string * V)) bool :=
  λ d, (Dict.contains k d, d).

(** Lines 197-200. *)
Definition all_filters (fs : filters) : list string :=
  let l := [] in
  let l := match Dict.get "filter" fs with Some f => l ++ [f] | None => l end in
  let l := match Dict.get "fuzzyFilter" fs with Some f => l ++ [f] | None => l end in
  match Dict.get "relationFilter" fs with Some f => l ++ [f] | None => l end.

Definition unmapped_warning (road_type placeholder : string) : string :=
  road_type +:+ ": Unable to map '" +:+ placeholder +:+ "'".

(** Lines 203-205, the body of the loop over the matches. *)
Definition check_placeholder (road_type : string) (warnings : list string)
    (placeholder : string) : State road_types (list string) :=
  st_bind (dict_contains placeholder) (λ present,
  st_ret (if present : bool then warnings
          else warnings ++ [unmapped_warning road_type placeholder])).

(** Lines 202-205, the body of the loop over [all_filters]. *)
Definition check_filter (road_type : string) (warnings : list string)
    (f : string) : State road_types (list string) :=
  st_for (check_placeholder road_type) warnings (Re.placeholders f).

(** Lines 197-205, the body of the loop over the items. *)
Definition check_road_type (warnings : list string) (item : string * filters)
    : State road_types (list string) :=
  let '(road_type, fs) := item in
  st_for (check_filter road_type) warnings (all_filters fs).

(** [validate_road_types(road_types)], as a computation on the dictionary
    object it is given. *)
Definition validate_road_types : State road_types (list string) :=
  st_bind dict_items (λ items, st_for check_road_type [] items).

(** ** [validate_road_types_in_speed_table] *)

(** Lines 212-215, the body of the loop over the entries of one country. *)
Definition check_road_class (defined : road_types) (country_code : string)
    (warnings : list string) (rc : road_class) : list string :=
  match rc_name rc with
  | Some road_type =>
      if Dict.contains road_type defined then warnings
      else warnings ++ [unmapped_warning country_code road_type]
  | None => warnings
  end.

(** Lines 210-215, the body of the loop over the keys; a key of the
    dictionary is always found in it. *)
Definition check_country (speeds_by_country_code : list (string * list road_class))
    (defined : road_types) (warnings : list string) (country_code : string)
    : list string :=
  match Dict.get country_code speeds_by_country_code with
  | Some entries => foldl (check_road_class defined country_code) warnings entries
  | None => warnings
  end.

(** [validate_road_types_in_speed_table(speeds_by_country_code, road_types)] *)
Definition validate_road_types_in_speed_table
    (speeds_by_country_code : list (string * list road_class))
    (defined : road_types) : list string :=
  foldl (check_country speeds_by_country_code defined) []
        (speeds_by_country_code.*1).

(** ** Sample inputs

    A small reference database and a few tables, used to run the
    definitions above. *)

Definition sample_db : pycountry :=
  Pycountry
    (λ n, if String.eqb n "Germany" then Some "DE"
          else if String.eqb n "Atlantis" then Some "AT"
          else None)
    (λ c, if String.eqb c "DE"
          then Some [Subdivision "Bayern" "DE-BY"; Subdivision "Berlin" "DE-BE"]
          else if String.eqb c "AT"
          then Some [Subdivision "North:East" "AT-NE"]
          else None).

Definition td (attrs : list (string * string)) (text : string) : node :=
  Tag "td" attrs [Text text].

Definition th (attrs : list (string * string)) (text : string) : node :=
  Tag "th" attrs [Text text].

Definition tr (cells : list node) : node := Tag "tr" [] cells.

Definition cell_A : node := td [] "A".
Definition cell_B : node := td [("rowspan", "2")] "B".
Definition cell_C : node := td [("colspan", "2")] "C".
Definition cell_D : node := td [] "D".
Definition cell_no_width : node := td [("colspan", "0")] "E".
Definition cell_no_height : node := td [("rowspan", "0")] "F".

(** A speed parser that understands digits only and fails on "fast". *)
Definition picky_parser (s : string) : option (list (string * string)) :=
  if String.eqb s "fast" then None else Some [("maxspeed", s)].

Definition header_row : node :=
  tr [th [] "Country"; th [] "Road type"; th [] "(default)"; th [] "hgv"].

(** The table of the end-to-end scenario, and the same table with one cell
    the parser fails on. *)
Definition bonaire_table : node :=
  Tag "table" []
    [header_row;
     tr [td [] "Netherlands:Bonaire"; td [] "motorway"; td [] "100"; td [] "80"]].

Definition unparsable_table : node :=
  Tag "table" []
    [header_row;
     tr [td [] "Netherlands:Bonaire"; td [] "motorway"; td [] "fast"; td [] "80"]].

Definition unknown_row : node :=
  tr [td [] "Unknownland"; td [] "motorway"; td [] "100"; td [] "80"].

(** A road-type table with a footnote mark in one of its cells. *)
Definition footnote_table : node :=
  Tag "table" []
    [tr [td [] "motorway";
         Tag "td" [] [Text "highway=motorway"; Tag "sup" [] [Text "1"]];
         td [] ""; td [] ""]].

(** ** Notions used by the statements below *)

(** Induction over a tree, with the property known of all children. *)
Fixpoint node_children_ind (P : node → Prop)
    (Htext : ∀ s, P (Text s))
    (Htag : ∀ nm a cs, Forall P cs → P (Tag nm a cs))
    (n : node) : P n :=
  match n with
  | Text s => Htext s
  | Tag nm a cs =>
      Htag nm a cs
        ((fix go (l : list node) : Forall P l :=
            match l with
            | [] => @List.Forall_nil node P
            | c :: l' =>
                @List.Forall_cons node P c l'
                  (node_children_ind P Htext Htag c) (go l')
            end) cs)
  end.

(** *** Brace-delimited tokens, as the specification words them *)

(** Every character of [s] is one that [ok] admits. *)
Fixpoint all_chars (ok : ascii → bool) (s : string) : bool :=
  match s with
  | EmptyString => true
  | String c s' => ok c && all_chars ok s'
  end.

(** Which characters a run may hold: any character, as the specification
    has it, or any character but the line feed. *)
Definition any_char : ascii → bool := λ _, true.

Definition same_line : ascii → bool :=
  λ c, negb (Ascii.eqb c (ascii_of_nat 10)).

(** [s] begins with an opening brace, a run [p] of admitted characters
    and a closing brace; [rest] is what follows. *)
Definition braced (ok : ascii → bool) (s p rest : string) : Prop :=
  s = "{" +:+ p +:+ "}" +:+ rest ∧ all_chars ok p = true.

(** A token begins [s]: a brace, the shortest possible run of admitted
    characters, a closing brace. *)
Definition token_at (ok : ascii → bool) (s p rest : string) : Prop :=
  braced ok s p rest ∧
  ∀ p' rest', braced ok s p' rest' →
              (String.length p ≤ String.length p')%nat.

(** The scan of a text for its tokens, from left to right: a token that
    begins the text is taken and the scan goes on behind it; where no
    token begins the text, the scan goes on one character further.  The
    list holds the inner texts of the tokens. *)
Inductive scan (ok : ascii → bool) : string → list string → Prop :=
| scan_end : scan ok "" []
| scan_token (s p rest : string) (ps : list string) :
    token_at ok s p rest → scan ok rest ps → scan ok s (p :: ps)
| scan_skip (c : ascii) (s : string) (ps : list string) :
    (∀ p rest, ¬ token_at ok (String c s) p rest) →
    scan ok s ps → scan ok (String c s) ps.

(** The filter expressions of a road class that are present, in the order
    filter, fuzzyFilter, relationFilter. *)
Definition present_filters (fs : filters) : list string :=
  omap (λ k, Dict.get k fs) ["filter"; "fuzzyFilter"; "relationFilter"].

(** The warnings the specification asks for, given the tokens of every
    text: road type by road type, filter by filter and token by token, one
    warning for each token whose inner text is not a key of the
    mapping. *)
Definition expected_warnings (tokens : string → list string)
    (all : road_types) : list string :=
  flat_map (λ item,
    (λ p, item.1 +:+ ": Unable to map '" +:+ p +:+ "'")
      <$> filter (λ p, p ∉ all.*1)
            (flat_map tokens (present_filters item.2)))
    all.

(** A filter whose braces enclose a line feed. *)
Definition split_token : string := "a" +:+ String (ascii_of_nat 10) "b".

Definition split_filter : string := "{" +:+ split_token +:+ "}".

Definition split_types : road_types :=
  [("trunk", [("filter", split_filter)])].

Definition trunk_types : road_types :=
  [("trunk", [("filter", "highway={primary}")])].

(** A tag that [find_all(is_uninteresting)] selects. *)
Definition junk (n : node) : bool := Dom.is_tag n && is_uninteresting n.

(** The children kept by [decompose_all], each one cleaned in turn. *)
Fixpoint prune (f : node → bool) (l : list node) : list node :=
  match l with
  | [] => []
  | c :: l' =>
      if Dom.is_tag c && f c then prune f l'
      else Dom.decompose_all f c :: prune f l'
  end.


(** A sequence of [set_tds] calls, one per table row. *)
Fixpoint run (c : TableRowHelper.cache) (rows : list (list node))
    : res TableRowHelper.cache :=
  match rows with
  | [] => mret c
  | tds :: rows' => c' ← TableRowHelper.set_tds c tds; run c' rows'
  end.

(** Column [k] is left alone by the insertion pass of every row of [rows]:
    after each [set_tds] the column holds what the first loop made of it. *)
Fixpoint undisturbed (k : nat) (c : TableRowHelper.cache)
    (rows : list (list node)) : Prop :=
  match rows with
  | [] => True
  | tds :: rows' =>
      match TableRowHelper.set_tds c tds with
      | Ok c' => c' !! k = TableRowHelper.expire c !! k ∧ undisturbed k c' rows'
      | Raise _ => False
      end
  end.

(** [ch in s] for a single character. *)
Fixpoint has_char (ch : ascii) (s : string) : bool :=
  match s with
  | EmptyString => false
  | String c s' => Ascii.eqb c ch || has_char ch s'
  end.

(** The subdivision text as the specification words it: what follows the
    first colon of the name, trimmed. *)
Fixpoint after_first_colon (s : string) : option string :=
  match s with
  | EmptyString => None
  | String c s' => if Ascii.eqb c ":" then Some s' else after_first_colon s'
  end.

Fixpoint before_first_colon (s : string) : string :=
  match s with
  | EmptyString => EmptyString
  | String c s' =>
      if Ascii.eqb c ":" then EmptyString else String c (before_first_colon s')
  end.

(** The resolver as the specification words it, steps 1 to 4 with the
    split at the first colon only; to be compared with
    [get_country_code]. *)
Definition spec_get_country_code (db : pycountry) (name : string)
    : option string :=
  match Dict.get name country_codes with
  | Some code => Some code
  | None =>
      match countries_lookup db (Py.strip (before_first_colon name)) with
      | None => None
      | Some country_code =>
          match after_first_colon name with
          | None => Some country_code
          | Some sub =>
              match subdivisions_get db country_code with
              | None => None
              | Some subdivisions =>
                  sub_code <$>
                    List.find (λ s, String.eqb (sub_name s) (Py.strip sub))
                              subdivisions
              end
          end
      end
  end.

(** The reference part of the resolver for a country text and an optional
    subdivision text: steps 2 to 4. *)
Definition resolve_parts (db : pycountry) (country : string)
    (sub : option string) : option string :=
  match countries_lookup db (Py.strip country) with
  | None => None
  | Some country_code =>
      match sub with
      | None => Some country_code
      | Some text =>
          match subdivisions_get db country_code with
          | None => None
          | Some subdivisions =>
              sub_code <$>
                List.find (λ s, String.eqb (sub_name s) (Py.strip text))
                          subdivisions
          end
      end
  end.


(** A cell without [rowspan] and without [colspan] attribute. *)
Definition plain (cell : node) : Prop :=
  Dom.get cell "rowspan" = None ∧ Dom.get cell "colspan" = None.

(** A cell whose two span attributes, where present, are strings that
    [int] accepts. *)
Definition spans_parse (cell : node) : Prop :=
  (∃ r, Dom.int_attr cell "rowspan" = Ok r) ∧
  (∃ w, Dom.int_attr cell "colspan" = Ok w).

(** A literal of [n] digits. *)
Fixpoint digits_of (n : nat) : string :=
  match n with
  | O => EmptyString
  | S n' => String "1" (digits_of n')
  end.

(** The warning of line 113. *)
Definition unknown_warning (country : string) : string :=
  country +:+ ": Unknown country / subdivision".

(** The warnings of the speed-table check for the entries of one country. *)
Definition unmapped_names (defined : road_types) (entries : list road_class)
    : list string :=
  filter (λ n, Dict.contains n defined = false) (omap rc_name entries).

(** A speed table of two countries and the road types it is checked
    against. *)
Definition sample_speeds : list (string * list road_class) :=
  [("DE", [RoadClass [("maxspeed", "100")] (Some "rural");
           RoadClass [("maxspeed", "50")] None]);
   ("NL-BQ1", [RoadClass [] (Some "motorway")])].

Definition sample_road_types : road_types :=
  [("motorway", [("filter", "highway=motorway")])].

Definition plain_row : list node := [cell_A; cell_D].

(** What holds of every mapping [parse_speed_table] returns: the keys are
    pairwise distinct and none is empty, every list has an entry, and no
    entry has an empty name. *)
Definition speeds_invariant (result : list (string * list road_class)) : Prop :=
  NoDup result.*1 ∧
  ∀ code entries,
    Dict.get code result = Some entries →
    code ≠ "" ∧ entries ≠ [] ∧ Forall (λ rc, rc_name rc ≠ Some "") entries.

(** What holds of every filter set [parse_road_types_table] records: its
    keys are among [filter], [fuzzyFilter] and [relationFilter], each at
    most once and in this order, and no value is empty. *)
Definition filters_well_formed (fs : filters) : Prop :=
  fs.*1 `sublist_of` ["filter"; "fuzzyFilter"; "relationFilter"] ∧
  Forall (λ kv, kv.2 ≠ "") fs.

(** A road-type row of three cells. *)
Definition short_row : node :=
  tr [td [] "motorway"; td [] "highway=motorway"; td [] ""].

(** The string of a string node. *)
Definition text_of (n : node) : option string :=
  match n with Text s => Some s | Tag _ _ _ => None end.

Definition linked_types : road_types :=
  [("motorway", [("filter", "highway=motorway")]);
   ("link", [("filter", "{motorway} and link=yes")])].

(** A cache holding A for one more row in column 0 and B for two in
    column 1. *)
Definition two_columns : TableRowHelper.cache :=
  <[0%nat := (1, cell_A)]> (<[1%nat := (2, cell_B)]> ∅).

(** [old] occurs in [s] as a substring. *)
Definition occurs (old s : string) : Prop := ∃ a b, s = a +:+ old +:+ b.

(** A word that cannot begin inside a text free of it and run into an
    occurrence that follows the text: none of its proper prefixes is also
    a suffix. *)
Definition stands_alone (old : string) : Prop :=
  ∀ p rest, p ≠ "" → Py.find old p = None →
            Py.startswith old (p +:+ old +:+ rest) = false.

Ltac decide_chars :=
  repeat match goal with
         | |- context [Ascii.eqb ?a ?b] =>
             first [is_var b | is_var a];
             destruct (Ascii.eqb_spec a b); subst; cbn -[Ascii.eqb]
         end;
  reflexivity.

(** What the first loop of [set_tds] does to one entry. *)
Definition expire_entry (e : Z * node) : option (Z * node) :=
  if e.1 =? 1 then None else Some (e.1 - 1, e.2).

(** ** Properties of the row helper *)

Section row_helper.
Import TableRowHelper.

Lemma expire_key_same (c : cache) (k : nat) :
  expire_key c k !! k = c !! k ≫= expire_entry.
Proof.
  unfold expire_key, expire_entry.
  destruct (c !! k) as [[r v]|] eqn:E; simpl.
  - destruct (r =? 1).
    + apply lookup_delete_eq.
    + apply lookup_insert_eq.
  - by rewrite E.
Qed.

Lemma expire_key_other (c : cache) (k j : nat) :
  k ≠ j → expire_key c k !! j = c !! j.
Proof.
  intros Hne. unfold expire_key.
  destruct (c !! k) as [[r v]|]; [|done].
  destruct (r =? 1).
  - by apply lookup_delete_ne.
  - by apply lookup_insert_ne.
Qed.

Lemma foldl_expire_key (keys : list nat) (c : cache) (j : nat) :
  NoDup keys →
  foldl expire_key c keys !! j
  = if decide (j ∈ keys) then c !! j ≫= expire_entry else c !! j.
Proof.
  revert c. induction keys as [|a keys IH]; intros c Hnd.
  - rewrite decide_False by apply not_elem_of_nil. done.
  - inversion_clear Hnd as [|? ? Ha Hnd'].
    change (foldl expire_key c (a :: keys))
      with (foldl expire_key (expire_key c a) keys).
    rewrite IH by done.
    destruct (decide (j = a)) as [->|Hne].
    + rewrite decide_False by done.
      rewrite decide_True by apply list_elem_of_here.
      apply expire_key_same.
    + rewrite expire_key_other by done.
      case_decide as H1; case_decide as H2; try done.
      * exfalso. apply H2. by apply list_elem_of_further.
      * exfalso. apply elem_of_cons in H2 as [?|?]; done.
Qed.

(** The first loop of [set_tds] evicts the entries with one row left and
    decrements the others. *)
Lemma expire_lookup (c : cache) (j : nat) :
  expire c !! j = c !! j ≫= expire_entry.
Proof.
  unfold expire. rewrite foldl_expire_key by apply NoDup_elements.
  case_decide as H; [done|].
  rewrite elem_of_elements, elem_of_dom in H.
  destruct (c !! j); [|done]. exfalso. by apply H.
Qed.

(** *** The cursor *)

Lemma skip_from_ge (fuel : nat) (c : cache) (col : nat) :
  (col ≤ skip_from fuel c col)%nat.
Proof.
  revert col. induction fuel as [|fuel IH]; intros col; simpl; [lia|].
  destruct (c !! col); [|lia]. specialize (IH (S col)). lia.
Qed.

Lemma skip_from_occupied (fuel : nat) (c : cache) (col j : nat) :
  (col ≤ j < skip_from fuel c col)%nat → is_Some (c !! j).
Proof.
  revert col. induction fuel as [|fuel IH]; intros col; simpl; [lia|].
  destruct (c !! col) eqn:E; [|lia].
  intros Hj. destruct (decide (j = col)) as [->|Hne]; [by rewrite E|].
  apply (IH (S col)). lia.
Qed.

Lemma skip_from_ext (fuel : nat) (c c' : cache) (col : nat) :
  (∀ j, (col ≤ j)%nat → c !! j = c' !! j) →
  skip_from fuel c col = skip_from fuel c' col.
Proof.
  revert col. induction fuel as [|fuel IH]; intros col Hext; simpl; [done|].
  rewrite <- (Hext col) by lia.
  destruct (c !! col); [|done].
  apply IH. intros j Hj. apply Hext. lia.
Qed.

(** With [size c] turns the loop has left the occupied columns: the
    fuel of [skip] never runs out. *)
Lemma skip_from_free (fuel : nat) (c : cache) (col : nat) :
  (size c ≤ fuel)%nat → c !! skip_from fuel c col = None.
Proof.
  revert c col. induction fuel as [|fuel IH]; intros c col Hsz; simpl.
  - assert (c = ∅) as -> by (apply map_size_empty_iff; lia). done.
  - destruct (c !! col) as [e|] eqn:E; [|done].
    assert (Hext : ∀ j, (S col ≤ j)%nat → c !! j = delete col c !! j).
    { intros j Hj. rewrite lookup_delete_ne by lia. done. }
    rewrite (skip_from_ext _ _ _ _ Hext).
    rewrite Hext.
    + apply IH. rewrite map_size_delete, E. simpl. lia.
    + rewrite <- (skip_from_ext _ _ _ _ Hext). apply skip_from_ge.
Qed.

Lemma skip_free (c : cache) (col : nat) : c !! skip c col = None.
Proof. by apply skip_from_free. Qed.

Lemma skip_ge (c : cache) (col : nat) : (col ≤ skip c col)%nat.
Proof. apply skip_from_ge. Qed.

Lemma skip_occupied (c : cache) (col j : nat) :
  (col ≤ j < skip c col)%nat → is_Some (c !! j).
Proof. apply skip_from_occupied. Qed.

(** *** Placing cells *)

Lemma fill_spec (n : nat) (r : Z) (cell : node) (c : cache) (col : nat) :
  (fill n r cell c col).2 = (col + n)%nat ∧
  ∀ j, (fill n r cell c col).1 !! j
       = if decide (col ≤ j < col + n)%nat then Some (r, cell) else c !! j.
Proof.
  revert c col. induction n as [|n IH]; intros c col; simpl.
  - split; [lia|]. intros j. rewrite decide_False by lia. done.
  - destruct (IH (<[col:=(r, cell)]> c) (S col)) as [IH1 IH2].
    split; [lia|]. intros j. rewrite IH2.
    destruct (decide (j = col)) as [->|Hne].
    + rewrite decide_False by lia. rewrite decide_True by lia.
      apply lookup_insert_eq.
    + rewrite lookup_insert_ne by done.
      case_decide; case_decide; try done; lia.
Qed.

Lemma place_td_spec (cell : node) (c c' : cache) (col col' : nat) :
  place_td cell c col = Ok (c', col') →
  ∃ r w, Dom.int_attr cell "rowspan" = Ok r ∧
         Dom.int_attr cell "colspan" = Ok w ∧
         col' = (skip c col + Z.to_nat w)%nat ∧
         ∀ j, c' !! j
              = if decide (skip c col ≤ j < skip c col + Z.to_nat w)%nat
                then Some (r, cell) else c !! j.
Proof.
  unfold place_td.
  destruct (Dom.int_attr cell "rowspan") as [r|] eqn:Er; [|done].
  destruct (Dom.int_attr cell "colspan") as [w|] eqn:Ew; [|done].
  simpl. intros [= Hfill]. exists r, w.
  destruct (fill_spec (Z.to_nat w) r cell c (skip c col)) as [F1 F2].
  rewrite Hfill in F1, F2. simpl in F1, F2. subst col'.
  repeat split; done.
Qed.

(** The insertion pass never moves the cursor back and never touches a
    column left of it. *)
Lemma insert_tds_below (tds : list node) (c c' : cache) (col col' : nat) :
  insert_tds tds c col = Ok (c', col') →
  (col ≤ col')%nat ∧ ∀ j, (j < col)%nat → c' !! j = c !! j.
Proof.
  revert c col. induction tds as [|cell tds IH]; intros c col; simpl.
  - intros [= -> ->]. split; [lia|done].
  - destruct (place_td cell c col) as [[c1 col1]|] eqn:Ep; [|done].
    simpl. intros Hins.
    destruct (place_td_spec _ _ _ _ _ Ep) as (r & w & _ & _ & -> & Hc1).
    destruct (IH _ _ Hins) as [Hle Hlow].
    pose proof (skip_ge c col).
    split; [lia|]. intros j Hj.
    rewrite Hlow by lia. rewrite Hc1. rewrite decide_False by lia. done.
Qed.

Lemma insert_tds_app (tds1 tds2 : list node) (c : cache) (col : nat) :
  insert_tds (tds1 ++ tds2) c col
  = '(c', col') ← insert_tds tds1 c col; insert_tds tds2 c' col'.
Proof.
  revert c col. induction tds1 as [|cell tds1 IH]; intros c col; simpl.
  - done.
  - destruct (place_td cell c col) as [[c1 col1]|]; simpl; [apply IH|done].
Qed.

(** A cell of the row being set ends up in each of the columns the
    insertion pass gives it, with its own row span as the count. *)
Lemma set_tds_own_row (c0 ca c1 : cache) (pre post : list node)
    (cell : node) (r w : Z) (cola k : nat) :
  Dom.int_attr cell "rowspan" = Ok r →
  Dom.int_attr cell "colspan" = Ok w →
  insert_tds pre (expire c0) 0 = Ok (ca, cola) →
  (skip ca cola ≤ k < skip ca cola + Z.to_nat w)%nat →
  set_tds c0 (pre ++ cell :: post) = Ok c1 →
  c1 !! k = Some (r, cell).
Proof.
  intros Er Ew Hpre Hk. unfold set_tds.
  rewrite insert_tds_app, Hpre. simpl.
  destruct (place_td cell ca cola) as [[c2 col2]|] eqn:Ep; [|done]. simpl.
  destruct (insert_tds post c2 col2) as [[c3 col3]|] eqn:Ei; [|done].
  simpl. intros [= <-].
  destruct (place_td_spec _ _ _ _ _ Ep) as (r' & w' & Er' & Ew' & -> & Hc2).
  rewrite Er in Er'. rewrite Ew in Ew'.
  injection Er' as <-. injection Ew' as <-.
  destruct (insert_tds_below _ _ _ _ _ Ei) as [_ Hlow].
  rewrite Hlow by lia. rewrite Hc2. by rewrite decide_True.
Qed.

Lemma undisturbed_take (k : nat) (rows : list (list node)) (c : cache)
    (j : nat) :
  undisturbed k c rows → undisturbed k c (take j rows).
Proof.
  revert c j. induction rows as [|tds rows IH]; intros c [|j]; simpl; try done.
  destruct (set_tds c tds) as [c'|]; [|done].
  intros [H1 H2]. split; [done|]. by apply IH.
Qed.

(** While no later row writes over column [k], each [set_tds] takes one
    off the count of the entry there. *)
Lemma undisturbed_countdown (k : nat) (cell : node)
    (rows : list (list node)) (c : cache) (n : Z) :
  c !! k = Some (n, cell) →
  Z.of_nat (length rows) < n →
  undisturbed k c rows →
  ∃ c', run c rows = Ok c' ∧ c' !! k = Some (n - Z.of_nat (length rows), cell).
Proof.
  revert c n. induction rows as [|tds rows IH]; intros c n Hk Hlen Hund.
  - exists c. split; [done|]. rewrite Hk. simpl. do 2 f_equal. lia.
  - simpl in Hund, Hlen |- *.
    destruct (set_tds c tds) as [c2|] eqn:Es; [|done].
    destruct Hund as [Hsame Hund]. simpl.
    rewrite expire_lookup, Hk in Hsame. simpl in Hsame.
    unfold expire_entry in Hsame. simpl in Hsame.
    destruct (Z.eqb_spec n 1) as [->|Hn1]; [lia|].
    destruct (IH c2 (n - 1) Hsame ltac:(lia) Hund) as (c' & Hrun & Hc').
    exists c'. split; [done|]. rewrite Hc'. do 2 f_equal. lia.
Qed.

Lemma set_tds_nil (c : cache) : set_tds c [] = Ok (expire c).
Proof. reflexivity. Qed.

(** C2, amended: a cell inserted with [row_span = N] (N ≥ 1) is returned by
    [get_td] at each of its columns for N consecutive rows, its own row
    first, provided the insertion pass of the N-1 following rows does not
    write over that column (a cell placed left of it whose column span
    runs across it would); on the row after, the first loop of [set_tds]
    has evicted the entry, and [get_td] finds nothing there when that row
    brings no cell. *)
Theorem rowspan_cell_visible_for_N_rows (c0 ca c1 : cache)
    (pre post : list node) (cell : node) (N w : Z) (cola k : nat)
    (rows : list (list node)) :
  Dom.int_attr cell "rowspan" = Ok N →
  1 ≤ N →
  Dom.int_attr cell "colspan" = Ok w →
  insert_tds pre (expire c0) 0 = Ok (ca, cola) →
  (skip ca cola ≤ k < skip ca cola + Z.to_nat w)%nat →
  set_tds c0 (pre ++ cell :: post) = Ok c1 →
  Z.of_nat (length rows) = N - 1 →
  undisturbed k c1 rows →
  (∀ j, (j ≤ length rows)%nat →
     ∃ cj, run c1 (take j rows) = Ok cj ∧ get_td cj k = Ok cell) ∧
  (∃ cN, run c1 rows = Ok cN ∧ expire cN !! k = None ∧
         ∃ c', set_tds cN [] = Ok c' ∧ get_td c' k = Raise (KeyError k)).
Proof.
  intros Er HN Ew Hpre Hk Hset Hlen Hund.
  pose proof (set_tds_own_row _ _ _ _ _ _ _ _ _ _ Er Ew Hpre Hk Hset) as Hc1.
  split.
  - intros j Hj.
    destruct (undisturbed_countdown k cell (take j rows) c1 N Hc1)
      as (cj & Hrun & Hcj).
    + rewrite length_take. lia.
    + by apply undisturbed_take.
    + exists cj. split; [done|]. unfold get_td. by rewrite Hcj.
  - destruct (undisturbed_countdown k cell rows c1 N Hc1 ltac:(lia) Hund)
      as (cN & Hrun & HcN).
    exists cN. split; [done|].
    assert (Hgone : expire cN !! k = None).
    { rewrite expire_lookup, HcN. simpl. unfold expire_entry. simpl.
      replace (N - Z.of_nat (length rows)) with 1 by lia. done. }
    split; [done|]. exists (expire cN). split; [apply set_tds_nil|].
    unfold get_td. by rewrite Hgone.
Qed.

Lemma rowspan_cell_visible_witness :
  ∃ c1, set_tds init [cell_A; cell_B] = Ok c1 ∧
    (∀ j, (j ≤ 1)%nat →
       ∃ cj, run c1 (take j [[cell_D]]) = Ok cj ∧ get_td cj 1 = Ok cell_B) ∧
    (∃ cN, run c1 [[cell_D]] = Ok cN ∧ expire cN !! 1%nat = None ∧
           ∃ c', set_tds cN [] = Ok c' ∧ get_td c' 1 = Raise (KeyError 1)).
Proof.
  eexists. split; [vm_compute; reflexivity|].
  apply (rowspan_cell_visible_for_N_rows init (<[0%nat := (1, cell_A)]> ∅) _
           [cell_A] [] cell_B 2 1 1 1 [[cell_D]]).
  - reflexivity.
  - lia.
  - reflexivity.
  - vm_compute; reflexivity.
  - vm_compute. lia.
  - vm_compute; reflexivity.
  - reflexivity.
  - vm_compute. split; reflexivity.
Defined.

(** C2 as stated fails: the cell B enters column 1 with a row span of 2,
    and on the next row the cell C, placed in the free column 0 with a
    column span of 2, is written over it. *)
Lemma rowspan_cell_overwritten :
  ∃ c1 c2,
    Dom.int_attr cell_B "rowspan" = Ok 2 ∧
    set_tds init [cell_A; cell_B] = Ok c1 ∧ get_td c1 1 = Ok cell_B ∧
    set_tds c1 [cell_C] = Ok c2 ∧ get_td c2 1 = Ok cell_C ∧
    cell_C ≠ cell_B.
Proof.
  eexists _, _. split; [reflexivity|].
  split; [vm_compute; reflexivity|].
  split; [vm_compute; reflexivity|].
  split; [vm_compute; reflexivity|].
  split; [vm_compute; reflexivity|].
  discriminate.
Qed.

(** A row whose cells span at most one column each leaves every occupied
    column as it is: such rows meet the proviso of the theorem above. *)
Lemma narrow_cells_keep_columns (tds : list node) (c c' : cache)
    (col col' j : nat) (e : Z * node) :
  Forall (λ cell, ∃ w, Dom.int_attr cell "colspan" = Ok w ∧ w ≤ 1) tds →
  insert_tds tds c col = Ok (c', col') →
  c !! j = Some e → c' !! j = Some e.
Proof.
  revert c col. induction tds as [|cell tds IH]; intros c col Hn; simpl.
  - by intros [= -> ->].
  - inversion_clear Hn as [|? ? (w & Ew & Hw) Hn'].
    destruct (place_td cell c col) as [[c1 col1]|] eqn:Ep; [|done].
    simpl. intros Hins Hj. apply (IH _ _ Hn' Hins).
    destruct (place_td_spec _ _ _ _ _ Ep) as (r & w' & _ & Ew' & _ & Hc1).
    rewrite Ew in Ew'. injection Ew' as <-.
    rewrite Hc1. case_decide as Hin; [|done].
    assert (j = skip c col) as -> by lia.
    by rewrite skip_free in Hj.
Qed.

Lemma narrow_row_undisturbed (tds : list node) (c c' : cache) (k : nat) :
  Forall (λ cell, ∃ w, Dom.int_attr cell "colspan" = Ok w ∧ w ≤ 1) tds →
  set_tds c tds = Ok c' →
  is_Some (expire c !! k) → c' !! k = expire c !! k.
Proof.
  unfold set_tds. intros Hn Hset [e He].
  destruct (insert_tds tds (expire c) 0) as [[c2 col2]|] eqn:Ei; [|done].
  simpl in Hset. injection Hset as <-.
  rewrite He. by eapply narrow_cells_keep_columns.
Qed.

Lemma iter_expire_zero (n : nat) (c : cache) (k : nat) (cell : node) :
  c !! k = Some (0, cell) →
  Nat.iter n expire c !! k = Some (- Z.of_nat n, cell).
Proof.
  intros Hk.
  assert (∀ m, Nat.iter m expire c !! k = Some (- Z.of_nat m, cell)) as H;
    [|apply H].
  induction m as [|m IH]; [done|].
  rewrite Nat.iter_succ, expire_lookup, IH. simpl. unfold expire_entry. simpl.
  destruct (Z.eqb_spec (- Z.of_nat m) 1); [lia|]. do 2 f_equal. lia.
Qed.

(** C6, amended: a missing [rowspan] or [colspan] attribute counts as 1,
    so a cell with neither is put into exactly one column and the first
    loop of the next [set_tds] evicts it.  A value of 0 is taken as it is:
    a cell with [colspan] 0 is put into no column, and the entry of a
    cell with [rowspan] 0 outlives any number of rows. *)
Theorem missing_span_counts_as_one (cell : node) (c : cache) (col : nat) :
  (∀ key, Dom.get cell key = None → Dom.int_attr cell key = Ok 1) ∧
  (Dom.get cell "rowspan" = None → Dom.get cell "colspan" = None →
     c !! skip c col = None ∧
     place_td cell c col
     = Ok (<[skip c col := (1, cell)]> c, S (skip c col)) ∧
     expire (<[skip c col := (1, cell)]> c) !! skip c col = None) ∧
  (Dom.get cell "colspan" = Some "0" →
     ∀ r, Dom.int_attr cell "rowspan" = Ok r →
          place_td cell c col = Ok (c, skip c col)) ∧
  (Dom.get cell "rowspan" = Some "0" → Dom.get cell "colspan" = None →
     place_td cell c col
     = Ok (<[skip c col := (0, cell)]> c, S (skip c col)) ∧
     ∀ n, Nat.iter n expire (<[skip c col := (0, cell)]> c) !! skip c col
          = Some (- Z.of_nat n, cell)).
Proof.
  split; [|split; [|split]].
  - intros key Hkey. unfold Dom.int_attr. by rewrite Hkey.
  - intros Hr Hc. split; [apply skip_free|]. split.
    + unfold place_td, Dom.int_attr. rewrite Hr, Hc. reflexivity.
    + rewrite expire_lookup, lookup_insert_eq. reflexivity.
  - intros Hc r Hr. unfold place_td. rewrite Hr. simpl.
    unfold Dom.int_attr. rewrite Hc. reflexivity.
  - intros Hr Hc. split.
    + unfold place_td, Dom.int_attr. rewrite Hr, Hc. reflexivity.
    + intros n. apply iter_expire_zero, lookup_insert_eq.
Qed.

Lemma missing_span_counts_as_one_witness :
  Dom.int_attr cell_A "rowspan" = Ok 1 ∧
  place_td cell_A init 0 = Ok (<[0%nat := (1, cell_A)]> init, 1%nat) ∧
  place_td cell_no_width init 0 = Ok (init, 0%nat) ∧
  Nat.iter 3 expire (<[0%nat := (0, cell_no_height)]> init) !! 0%nat
  = Some (-3, cell_no_height).
Proof.
  split; [|split; [|split]].
  - apply (missing_span_counts_as_one cell_A init 0). reflexivity.
  - apply (missing_span_counts_as_one cell_A init 0); reflexivity.
  - apply (missing_span_counts_as_one cell_no_width init 0) with (r := 1);
      reflexivity.
  - destruct (missing_span_counts_as_one cell_no_height init 0)
      as (_ & _ & _ & H).
    destruct (H eq_refl eq_refl) as [_ H3]. apply (H3 3%nat).
Defined.

(** C6 as stated fails for a span of 0: the cell with [colspan] 0 occupies
    no column of its row, and the cell with [rowspan] 0 is still in its
    column two rows later. *)
Lemma zero_span_is_not_one :
  set_tds init [cell_no_width] = Ok ∅ ∧
  get_td ∅ 0 = Raise (KeyError 0) ∧
  ∃ c1 c3, set_tds init [cell_no_height] = Ok c1 ∧
           run c1 [[]; []] = Ok c3 ∧ get_td c3 0 = Ok cell_no_height.
Proof.
  split; [vm_compute; reflexivity|].
  split; [reflexivity|].
  eexists _, _.
  split; [vm_compute; reflexivity|].
  split; vm_compute; reflexivity.
Qed.

End row_helper.

(** ** Properties of the string primitives and of the key rewrite *)

Section strings.

Lemma append_cons (c : ascii) (a b : string) :
  String c a +:+ b = String c (a +:+ b).
Proof. reflexivity. Qed.

Lemma append_empty (b : string) : "" +:+ b = b.
Proof. reflexivity. Qed.

Lemma append_nil (s : string) : s +:+ "" = s.
Proof.
  induction s as [|c s IH]; [done|]. by rewrite append_cons, IH.
Qed.

Lemma append_assoc (a b c : string) : (a +:+ b) +:+ c = a +:+ b +:+ c.
Proof.
  induction a as [|x a IH]; [done|]. by rewrite !append_cons, IH.
Qed.

Lemma find_unfold (old s : string) :
  Py.find old s
  = if Py.startswith old s then Some O
    else match s with
         | EmptyString => None
         | String _ s' => S <$> Py.find old s'
         end.
Proof. by destruct s. Qed.

(** Where [old] does not occur, [replace] returns the string as it is. *)
Lemma replace_from_absent (fuel : nat) (old new : string)
    (count : option nat) (s : string) :
  Py.find old s = None → Py.replace_from fuel old new count s = s.
Proof.
  revert s. induction fuel as [|fuel IH]; intros s Hf; simpl; [done|].
  destruct count as [[|n]|]; [done| |].
  all: destruct s as [|c s]; [done|].
  all: rewrite find_unfold in Hf.
  all: destruct (Py.startswith old (String c s)); [done|].
  all: destruct (Py.find old s) eqn:E; [done|].
  all: by rewrite IH.
Qed.

Lemma replace_absent (old new : string) (count : option nat) (s : string) :
  Py.contains old s = false → Py.replace old new count s = s.
Proof.
  unfold Py.contains, Py.replace. intros H.
  apply replace_from_absent. by destruct (Py.find old s).
Qed.

Lemma replace_from_zero (fuel : nat) (old new s : string) :
  Py.replace_from fuel old new (Some O) s = s.
Proof. by destruct fuel. Qed.

(** With a count of 1, [replace] rewrites the occurrence [find] reports. *)
Lemma replace_from_first (fuel : nat) (a : ascii) (old' new s : string)
    (i : nat) :
  (String.length s ≤ fuel)%nat →
  Py.find (String a old') s = Some i →
  Py.replace_from fuel (String a old') new (Some 1%nat) s
  = Py.take i s +:+ new +:+ Py.drop (i + String.length (String a old')) s.
Proof.
  revert fuel i. induction s as [|c s IH]; intros fuel i Hlen Hf.
  - done.
  - destruct fuel as [|fuel]; [simpl in Hlen; lia|].
    rewrite find_unfold in Hf.
    cbn [Py.replace_from].
    destruct (Py.startswith (String a old') (String c s)) eqn:Es.
    + injection Hf as <-. cbn [fmap option_fmap option_map pred].
      rewrite replace_from_zero. reflexivity.
    + destruct (Py.find (String a old') s) as [i'|] eqn:E; [|done].
      injection Hf as <-.
      rewrite (IH fuel i') by (simpl in Hlen; lia || done). reflexivity.
Qed.

Lemma contains_access_after_maxspeed (vt : string) :
  Py.contains "access" ("maxspeed:" +:+ vt) = Py.contains "access" vt.
Proof.
  unfold Py.contains. rewrite !append_cons, append_empty. simpl.
  destruct (Py.find "access" vt); reflexivity.
Qed.

Lemma drop_length_le (n : nat) (s : string) :
  (String.length (Py.drop n s) ≤ String.length s)%nat.
Proof.
  revert s. induction n as [|n IH]; intros [|c s]; simpl; try lia.
  specialize (IH s). lia.
Qed.

(** [String.length s] scan steps are enough for [replace_from]: more
    fuel does not change its result. *)
Lemma replace_from_fuel (fuel1 fuel2 : nat) (a : ascii)
    (old' new : string) (count : option nat) (s : string) :
  (String.length s ≤ fuel1)%nat → (String.length s ≤ fuel2)%nat →
  Py.replace_from fuel1 (String a old') new count s
  = Py.replace_from fuel2 (String a old') new count s.
Proof.
  revert fuel2 count s.
  induction fuel1 as [|fuel1 IH]; intros fuel2 count s H1 H2.
  - destruct s; [|simpl in H1; lia].
    destruct fuel2; [done|]. simpl. by destruct count as [[|?]|].
  - destruct fuel2 as [|fuel2].
    + destruct s; [|simpl in H2; lia]. simpl. by destruct count as [[|?]|].
    + cbn [Py.replace_from].
      destruct count as [[|n]|]; [done| |].
      all: destruct s as [|c s]; [done|].
      all: destruct (Py.startswith (String a old') (String c s)).
      all: f_equal; apply IH.
      all: simpl in H1, H2 |- *.
      all: try pose proof (drop_length_le (String.length old') s).
      all: lia.
Qed.

Lemma replace_first_occurrence (a : ascii) (old' new s : string) (i : nat) :
  Py.find (String a old') s = Some i →
  Py.replace (String a old') new (Some 1%nat) s
  = Py.take i s +:+ new +:+ Py.drop (i + String.length (String a old')) s.
Proof. intros H. by apply replace_from_first. Qed.

(** A key that starts with [old]: the occurrence is replaced and the
    scan goes on behind it. *)
Lemma replace_all_prefix (a : ascii) (old' new rest : string) :
  Py.replace (String a old') new None (String a old' +:+ rest)
  = new +:+ Py.replace (String a old') new None rest.
Proof.
  unfold Py.replace.
  assert (Hsw : ∀ p, Py.startswith p (p +:+ rest) = true).
  { induction p as [|c p IHp]; [done|].
    rewrite append_cons. simpl. rewrite IHp.
    by rewrite (proj2 (Ascii.eqb_eq c c)). }
  assert (Hdrop : ∀ p, Py.drop (String.length p) (p +:+ rest) = rest).
  { induction p as [|c p IHp]; [done|]. by rewrite append_cons. }
  rewrite append_cons. cbn [String.length Py.replace_from].
  rewrite <- append_cons, Hsw.
  change (S (String.length old')) with (String.length (String a old')).
  rewrite Hdrop. cbn [fmap option_fmap option_map].
  f_equal. apply replace_from_fuel; [|lia].
  clear. induction old' as [|c p IHp].
  + rewrite append_empty. lia.
  + rewrite append_cons. simpl. lia.
Qed.

Lemma string_eqb_neq (a b : string) : a ≠ b → String.eqb a b = false.
Proof. intros H. by apply String.eqb_neq. Qed.

(** *** Occurrences *)

Lemma append_length (a b : string) :
  String.length (a +:+ b) = (String.length a + String.length b)%nat.
Proof.
  induction a as [|c a IH]; [done|]. rewrite append_cons. simpl. by rewrite IH.
Qed.

Lemma startswith_append (p b : string) : Py.startswith p (p +:+ b) = true.
Proof.
  induction p as [|c p IH]; [done|].
  rewrite append_cons. simpl. by rewrite IH, (proj2 (Ascii.eqb_eq c c)).
Qed.

Lemma startswith_split (p s : string) :
  Py.startswith p s = true → ∃ b, s = p +:+ b.
Proof.
  revert s. induction p as [|c p IH]; intros s; [by exists s|].
  destruct s as [|d s]; [done|]. simpl.
  destruct (Ascii.eqb_spec c d) as [->|]; [|done]. simpl.
  intros H. destruct (IH _ H) as [b ->]. by exists b.
Qed.

(** [find] reports no occurrence exactly when there is none. *)
Lemma find_none_occurs (old s : string) :
  Py.find old s = None ↔ ¬ occurs old s.
Proof.
  split.
  - intros Hf (a & b & ->). revert Hf. induction a as [|c a IH].
    + rewrite append_empty, find_unfold, startswith_append. done.
    + rewrite append_cons, find_unfold.
      destruct (Py.startswith old (String c (a +:+ old +:+ b))); [done|].
      destruct (Py.find old (a +:+ old +:+ b)); [done|]. intros _. by apply IH.
  - induction s as [|c s IH]; intros Hno; rewrite find_unfold.
    + destruct (Py.startswith old "") eqn:E; [|done].
      exfalso. apply Hno. apply startswith_split in E as [b ->].
      by exists "", b.
    + destruct (Py.startswith old (String c s)) eqn:E.
      * exfalso. apply Hno. apply startswith_split in E as [b ->].
        by exists "", b.
      * rewrite IH; [done|]. intros (a & b & ->). apply Hno.
        by exists (String c a), b.
Qed.

Lemma startswith_long (old p x : string) :
  (String.length old ≤ String.length p)%nat →
  Py.startswith old (p +:+ x) = Py.startswith old p.
Proof.
  revert p. induction old as [|c old IH]; intros p Hlen; [by destruct p|].
  destruct p as [|d p]; [simpl in Hlen; lia|].
  rewrite append_cons. simpl. rewrite IH; [done|]. simpl in Hlen. lia.
Qed.

Lemma access_stands_alone : stands_alone "access".
Proof.
  intros p rest Hp Hf.
  destruct (le_lt_dec (String.length "access") (String.length p)) as [Hl|Hs].
  - rewrite (startswith_long _ _ _ Hl). rewrite find_unfold in Hf.
    by destruct (Py.startswith "access" p).
  - clear Hf.
    destruct p as [|c1 [|c2 [|c3 [|c4 [|c5 [|c6 p]]]]]];
      [done| | | | | |simpl in Hs; lia];
      rewrite !append_cons, append_empty; cbn -[Ascii.eqb]; decide_chars.
Qed.

Lemma maxspeed_stands_alone : stands_alone "maxspeed".
Proof.
  intros p rest Hp Hf.
  destruct (le_lt_dec (String.length "maxspeed") (String.length p)) as [Hl|Hs].
  - rewrite (startswith_long _ _ _ Hl). rewrite find_unfold in Hf.
    by destruct (Py.startswith "maxspeed" p).
  - clear Hf.
    destruct p as [|c1 [|c2 [|c3 [|c4 [|c5 [|c6 [|c7 [|c8 p]]]]]]]];
      [done| | | | | | | |simpl in Hs; lia];
      rewrite !append_cons, append_empty; cbn -[Ascii.eqb]; decide_chars.
Qed.

Lemma find_suffix_none (old : string) (c : ascii) (p : string) :
  Py.find old (String c p) = None → Py.find old p = None.
Proof.
  rewrite find_unfold. destruct (Py.startswith old (String c p)); [done|].
  by destruct (Py.find old p).
Qed.

(** The first occurrence behind a text that is free of the word. *)
Lemma find_behind_piece (old p rest : string) :
  stands_alone old → Py.find old p = None →
  Py.find old (p +:+ old +:+ rest) = Some (String.length p).
Proof.
  intros Halone. induction p as [|c p IH]; intros Hf.
  - rewrite append_empty, find_unfold, startswith_append. done.
  - rewrite find_unfold, (Halone (String c p) rest) by done.
    rewrite append_cons, (IH (find_suffix_none _ _ _ Hf)). done.
Qed.

Lemma take_append (p x : string) : Py.take (String.length p) (p +:+ x) = p.
Proof.
  induction p as [|c p IH]; [by destruct x|].
  rewrite append_cons. simpl. by rewrite IH.
Qed.

Lemma drop_append (p x : string) : Py.drop (String.length p) (p +:+ x) = x.
Proof. induction p as [|c p IH]; [done|]. by rewrite append_cons. Qed.

(** Replacing every occurrence, piece by piece. *)
Lemma replace_behind_piece (a : ascii) (old' new p rest : string) :
  stands_alone (String a old') → Py.find (String a old') p = None →
  Py.replace (String a old') new None (p +:+ String a old' +:+ rest)
  = p +:+ new +:+ Py.replace (String a old') new None rest.
Proof.
  intros Halone. induction p as [|c p IH]; intros Hf.
  - rewrite !append_empty. apply replace_all_prefix.
  - unfold Py.replace at 1. rewrite append_cons.
    cbn [String.length Py.replace_from].
    rewrite <- append_cons, (Halone (String c p) rest) by done.
    rewrite !append_cons. f_equal.
    apply (IH (find_suffix_none _ _ _ Hf)).
Qed.

Lemma replace_pieces (a : ascii) (old' new : string) (pieces : list string) :
  stands_alone (String a old') →
  Forall (λ p, ¬ occurs (String a old') p) pieces →
  Py.replace (String a old') new None (Py.join (String a old') pieces)
  = Py.join new pieces.
Proof.
  intros Halone Hfree.
  induction Hfree as [|p pieces Hp Hrest IH]; [done|].
  destruct pieces as [|q pieces].
  - simpl. apply replace_from_absent. by apply find_none_occurs.
  - change (Py.join (String a old') (p :: q :: pieces))
      with (p +:+ String a old' +:+ Py.join (String a old') (q :: pieces)).
    change (Py.join new (p :: q :: pieces))
      with (p +:+ new +:+ Py.join new (q :: pieces)).
    rewrite replace_behind_piece; [|done|by apply find_none_occurs].
    by rewrite IH.
Qed.

Lemma startswith_take (old s : string) (n : nat) :
  Py.startswith old (Py.take n s) = true → Py.startswith old s = true.
Proof.
  revert s n. induction old as [|c old IH]; intros s n; [done|].
  destruct n as [|n], s as [|d s]; simpl; try done.
  destruct (Ascii.eqb c d); [|done]. simpl. apply IH.
Qed.

(** Every text with an occurrence splits at the first one. *)
Lemma find_some_split (a : ascii) (old' s : string) (i : nat) :
  Py.find (String a old') s = Some i →
  s = Py.take i s +:+ String a old'
        +:+ Py.drop (i + String.length (String a old')) s ∧
  Py.find (String a old') (Py.take i s) = None.
Proof.
  revert i. induction s as [|c s IH]; intros i; rewrite find_unfold.
  - done.
  - destruct (Py.startswith (String a old') (String c s)) eqn:E.
    + intros [= <-]. split; [|done].
      apply startswith_split in E as [b Hb]. rewrite Hb at 1.
      cbn [Py.take Nat.add]. rewrite append_empty. f_equal.
      rewrite Hb. by rewrite drop_append.
    + destruct (Py.find (String a old') s) as [j|] eqn:Ej; [|done].
      intros [= <-]. destruct (IH j eq_refl) as [Hs Hnone].
      split.
      * cbn [Py.take Nat.add Py.drop]. rewrite append_cons. by f_equal.
      * cbn [Py.take]. rewrite find_unfold.
        destruct (Py.startswith (String a old') (String c (Py.take j s)))
          eqn:E'.
        -- apply (startswith_take _ (String c s) (S j)) in E'. congruence.
        -- by rewrite Hnone.
Qed.

(** Every text is a sequence of pieces free of the word, joined by it. *)
Lemma pieces_exist (a : ascii) (old' s : string) :
  ∃ pieces, pieces ≠ [] ∧ s = Py.join (String a old') pieces ∧
            Forall (λ p, ¬ occurs (String a old') p) pieces.
Proof.
  remember (String.length s) as n eqn:Hn. revert s Hn.
  induction n as [n IH] using lt_wf_ind. intros s ->.
  destruct (Py.find (String a old') s) as [i|] eqn:Ef.
  - destruct (find_some_split _ _ _ _ Ef) as [Hs Hnone].
    set (b := Py.drop (i + String.length (String a old')) s) in *.
    destruct (IH (String.length b)) with (s := b)
      as (pieces & Hne & Hb & Hfree); [|done|].
    { pose proof (f_equal String.length Hs) as Hlen.
      rewrite !append_length in Hlen. simpl in Hlen. lia. }
    exists (Py.take i s :: pieces). split; [done|]. split.
    + destruct pieces as [|q pieces]; [done|].
      change (Py.join (String a old') (Py.take i s :: q :: pieces))
        with (Py.take i s +:+ String a old'
                +:+ Py.join (String a old') (q :: pieces)).
      by rewrite <- Hb.
    + constructor; [by apply find_none_occurs|done].
  - exists [s]. split; [done|]. split; [done|].
    constructor; [by apply find_none_occurs|constructor].
Qed.

Lemma drop_behind (p x : string) (n : nat) :
  Py.drop (String.length p + n) (p +:+ x) = Py.drop n x.
Proof. induction p as [|c p IH]; [done|]. by rewrite append_cons. Qed.

(** The two steps of [rewrite_key] outside the "(default)" column, on a
    key split at its first "maxspeed" and at every "access". *)
Lemma rewrite_steps (vt key key1 : string) (pieces : list string) :
  vt ≠ "(default)" →
  (¬ occurs "maxspeed" key ∧ key1 = key ∨
   ∃ pre post, key = pre +:+ "maxspeed" +:+ post ∧
               ¬ occurs "maxspeed" pre ∧
               key1 = pre +:+ ("maxspeed:" +:+ vt) +:+ post) →
  key1 = Py.join "access" pieces →
  Forall (λ p, ¬ occurs "access" p) pieces →
  rewrite_key vt key = Py.join vt pieces.
Proof.
  intros Hvt Hkey1 Hjoin Hfree. unfold rewrite_key.
  rewrite (string_eqb_neq _ _ Hvt).
  assert (Hstep : Py.replace "maxspeed" ("maxspeed:" +:+ vt) (Some 1%nat) key
                  = key1).
  { destruct Hkey1 as [[Hno ->]|(pre & post & -> & Hno & ->)].
    - apply replace_absent. unfold Py.contains.
      by rewrite (proj2 (find_none_occurs _ _) Hno).
    - apply find_none_occurs in Hno.
      rewrite (replace_first_occurrence "m" "axspeed" _ _ _
                 (find_behind_piece _ _ post maxspeed_stands_alone Hno)).
      rewrite take_append, drop_behind.
      by rewrite (drop_append "maxspeed" post). }
  rewrite Hstep, Hjoin.
  by apply (replace_pieces "a" "ccess" vt pieces access_stands_alone).
Qed.

Lemma rewrite_steps_exist (vt key : string) :
  ∃ key1 pieces,
    (¬ occurs "maxspeed" key ∧ key1 = key ∨
     ∃ pre post, key = pre +:+ "maxspeed" +:+ post ∧
                 ¬ occurs "maxspeed" pre ∧
                 key1 = pre +:+ ("maxspeed:" +:+ vt) +:+ post) ∧
    key1 = Py.join "access" pieces ∧
    Forall (λ p, ¬ occurs "access" p) pieces.
Proof.
  destruct (Py.find "maxspeed" key) as [i|] eqn:Ef.
  - destruct (find_some_split "m" "axspeed" _ _ Ef) as [Hs Hnone].
    set (pre := Py.take i key) in *.
    set (post := Py.drop (i + String.length "maxspeed") key) in *.
    destruct (pieces_exist "a" "ccess"
                (pre +:+ ("maxspeed:" +:+ vt) +:+ post))
      as (pieces & _ & Hj & Hfree).
    exists (pre +:+ ("maxspeed:" +:+ vt) +:+ post), pieces.
    split; [|done]. right. exists pre, post.
    split; [done|]. split; [by apply find_none_occurs|done].
  - destruct (pieces_exist "a" "ccess" key) as (pieces & _ & Hj & Hfree).
    exists key, pieces. split; [|done]. left.
    split; [by apply find_none_occurs|done].
Qed.

(** C3, amended: in a column of the vehicle type [vt] other than
    "(default)", the first occurrence of the substring "maxspeed" in a key
    gets ":" and [vt] appended, and then every occurrence of the substring
    "access" in what results is replaced by [vt], in keys longer than
    "access" too.  So "access" becomes [vt], "maxspeed" becomes
    "maxspeed:vt" when [vt] does not itself contain "access", and a key
    that contains neither substring stays as it is.  In the "(default)"
    column every key stays as it is.  For every key: with [key1] the key
    after the first step (the key itself when "maxspeed" does not occur
    in it, else the key with "maxspeed:" and [vt] in place of its first
    "maxspeed"), and [key1] cut at every "access" into pieces free of
    "access", the result is the pieces joined by [vt]; such a [key1] and
    such pieces exist for every key. *)
Theorem rewrite_key_by_substring (vt key : string) :
  (vt = "(default)" → rewrite_key vt key = key) ∧
  (vt ≠ "(default)" →
     rewrite_key vt "access" = vt ∧
     (Py.contains "access" vt = false →
        rewrite_key vt "maxspeed" = "maxspeed:" +:+ vt) ∧
     (Py.contains "maxspeed" key = false →
      Py.contains "access" key = false →
        rewrite_key vt key = key) ∧
     (∀ i, Py.find "maxspeed" key = Some i →
        let key1 :=
          Py.take i key +:+ ("maxspeed:" +:+ vt) +:+ Py.drop (i + 8) key in
        rewrite_key vt key = Py.replace "access" vt None key1 ∧
        (Py.contains "access" key1 = false → rewrite_key vt key = key1)) ∧
     (∀ rest, Py.contains "maxspeed" ("access" +:+ rest) = false →
        rewrite_key vt ("access" +:+ rest)
        = vt +:+ Py.replace "access" vt None rest) ∧
     (∀ key1 pieces,
        (¬ occurs "maxspeed" key ∧ key1 = key ∨
         ∃ pre post, key = pre +:+ "maxspeed" +:+ post ∧
                     ¬ occurs "maxspeed" pre ∧
                     key1 = pre +:+ ("maxspeed:" +:+ vt) +:+ post) →
        key1 = Py.join "access" pieces →
        Forall (λ p, ¬ occurs "access" p) pieces →
        rewrite_key vt key = Py.join vt pieces) ∧
     (∃ key1 pieces,
        (¬ occurs "maxspeed" key ∧ key1 = key ∨
         ∃ pre post, key = pre +:+ "maxspeed" +:+ post ∧
                     ¬ occurs "maxspeed" pre ∧
                     key1 = pre +:+ ("maxspeed:" +:+ vt) +:+ post) ∧
        key1 = Py.join "access" pieces ∧
        Forall (λ p, ¬ occurs "access" p) pieces)).
Proof.
  split.
  - intros ->. reflexivity.
  - intros Hvt.
    assert (Hall := rewrite_steps vt key).
    assert (Hex := rewrite_steps_exist vt key).
    unfold rewrite_key.
    rewrite (string_eqb_neq _ _ Hvt).
    assert (Hfirst : ∀ i, Py.find "maxspeed" key = Some i →
              Py.replace "maxspeed" ("maxspeed:" +:+ vt) (Some 1%nat) key
              = Py.take i key +:+ ("maxspeed:" +:+ vt)
                  +:+ Py.drop (i + 8) key).
    { intros i Hi. by rewrite (replace_first_occurrence _ _ _ _ _ Hi). }
    split; [|split; [|split; [|split; [|split; [|split]]]]].
    + change (Py.replace "maxspeed" ("maxspeed:" +:+ vt) (Some 1%nat) "access")
        with "access".
      rewrite <- (append_nil "access") at 2.
      rewrite replace_all_prefix. apply append_nil.
    + intros Hacc.
      rewrite (replace_first_occurrence "m" "axspeed" _ "maxspeed" O eq_refl).
      change (Py.take 0 "maxspeed" +:+ ("maxspeed:" +:+ vt)
                +:+ Py.drop (0 + String.length "maxspeed") "maxspeed")
        with (("maxspeed:" +:+ vt) +:+ "").
      rewrite append_nil. apply replace_absent.
      by rewrite contains_access_after_maxspeed.
    + intros Hm Ha. rewrite (replace_absent _ _ _ _ Hm).
      by apply replace_absent.
    + intros i Hi. cbv zeta. rewrite (Hfirst i Hi).
      split; [done|]. apply replace_absent.
    + intros rest Hm. rewrite (replace_absent _ _ _ _ Hm).
      apply replace_all_prefix.
    + intros key1 pieces Hkey1 Hjoin Hfree.
      rewrite <- (Hall key1 pieces Hvt Hkey1 Hjoin Hfree).
      unfold rewrite_key. by rewrite (string_eqb_neq _ _ Hvt).
    + exact Hex.
Qed.

Lemma rewrite_key_by_substring_witness :
  rewrite_key "(default)" "maxspeed" = "maxspeed" ∧
  rewrite_key "hgv" "access" = "hgv" ∧
  rewrite_key "hgv" "maxspeed" = "maxspeed:hgv" ∧
  rewrite_key "hgv" "minspeed" = "minspeed" ∧
  rewrite_key "hgv" "maxspeed:wet" = "maxspeed:hgv:wet" ∧
  rewrite_key "hgv" "access:conditional" = "hgv:conditional" ∧
  rewrite_key "hgv" "x:access" = "x:hgv" ∧
  rewrite_key "hgv" "no_access:conditional" = "no_hgv:conditional" ∧
  rewrite_key "hgv" "access:maxspeed:access" = "hgv:maxspeed:hgv:hgv".
Proof.
  destruct (rewrite_key_by_substring "(default)" "maxspeed") as [Hd _].
  destruct (rewrite_key_by_substring "hgv" "minspeed")
    as [_ (Ha & Hm & Hn & _ & Hp & _)]; [discriminate|].
  destruct (rewrite_key_by_substring "hgv" "maxspeed:wet")
    as [_ (_ & _ & _ & Hf & _)]; [discriminate|].
  destruct (rewrite_key_by_substring "hgv" "x:access")
    as [_ (_ & _ & _ & _ & _ & Hx & _)]; [discriminate|].
  destruct (rewrite_key_by_substring "hgv" "no_access:conditional")
    as [_ (_ & _ & _ & _ & _ & Hy & _)]; [discriminate|].
  destruct (rewrite_key_by_substring "hgv" "access:maxspeed:access")
    as [_ (_ & _ & _ & _ & _ & Hz & _)]; [discriminate|].
  split; [by apply Hd|].
  split; [exact Ha|].
  split; [by apply Hm|].
  split; [by apply Hn|].
  split; [destruct (Hf O eq_refl) as [_ Hk]; apply Hk; reflexivity|].
  split; [apply (Hp ":conditional"); reflexivity|].
  split; [|split].
  - apply (Hx "x:access" ["x:"; ""]).
    + left. split; [apply find_none_occurs|]; reflexivity.
    + reflexivity.
    + repeat constructor; apply find_none_occurs; reflexivity.
  - apply (Hy "no_access:conditional" ["no_"; ":conditional"]).
    + left. split; [apply find_none_occurs|]; reflexivity.
    + reflexivity.
    + repeat constructor; apply find_none_occurs; reflexivity.
  - apply (Hz "access:maxspeed:hgv:access" [""; ":maxspeed:hgv:"; ""]).
    + right. exists "access:", ":access".
      split; [reflexivity|]. split; [apply find_none_occurs|]; reflexivity.
    + reflexivity.
    + repeat constructor; apply find_none_occurs; reflexivity.
Defined.

(** C3 as stated fails: the key "access:conditional" is not "access" and
    does not contain "maxspeed", yet in the column "hgv" it does not pass
    through unchanged. *)
Lemma longer_access_key_is_rewritten :
  "hgv" ≠ "(default)" ∧
  "access:conditional" ≠ "access" ∧
  Py.contains "maxspeed" "access:conditional" = false ∧
  rewrite_key "hgv" "access:conditional" = "hgv:conditional" ∧
  rewrite_key "hgv" "access:conditional" ≠ "access:conditional".
Proof. repeat split; (reflexivity || discriminate). Qed.

End strings.

(** ** Properties of the jurisdiction code resolver *)

Section resolver.

Lemma split_whole (sep : ascii) (a : string) :
  has_char sep a = false → Py.split sep a = [a].
Proof.
  induction a as [|c a IH]; simpl; [done|].
  intros H. apply orb_false_iff in H as [Hc Ha].
  rewrite Hc, (IH Ha). done.
Qed.

Lemma split_at_sep (sep : ascii) (a b : string) :
  has_char sep a = false →
  Py.split sep (a +:+ String sep b) = a :: Py.split sep b.
Proof.
  induction a as [|c a IH]; intros H.
  - rewrite append_empty. simpl.
    by rewrite (proj2 (Ascii.eqb_eq sep sep)).
  - simpl in H. apply orb_false_iff in H as [Hc Ha].
    rewrite append_cons. simpl. rewrite Hc, (IH Ha). done.
Qed.

Lemma split_first_piece (name : string) :
  nth 0 (Py.split ":" name) EmptyString = before_first_colon name.
Proof.
  induction name as [|c name IH]; simpl; [done|].
  destruct (Ascii.eqb c ":"); [done|].
  destruct (Py.split ":" name) as [|p ps]; simpl in *; by rewrite <- IH.
Qed.



Variable db : pycountry.




(** C7, amended: a name that is not in the override table is split at
    every colon; the first piece, trimmed, is the country text and the
    second piece, trimmed, is the subdivision text, so for
    "Country:Sub:division" the subdivision text is "Sub" and what follows
    the second colon is not looked at.  The country text is looked up in
    the reference, and the name resolves to nothing when it is not
    found. *)
Theorem resolver_splits_at_every_colon (country sub rest : string) :
  has_char ":" country = false →
  has_char ":" sub = false →
  (Dict.get country country_codes = None →
     get_country_code db country = resolve_parts db country None) ∧
  (Dict.get (country +:+ ":" +:+ sub) country_codes = None →
     get_country_code db (country +:+ ":" +:+ sub)
     = resolve_parts db country (Some sub)) ∧
  (Dict.get (country +:+ ":" +:+ sub +:+ ":" +:+ rest) country_codes = None →
     get_country_code db (country +:+ ":" +:+ sub +:+ ":" +:+ rest)
     = resolve_parts db country (Some sub)) ∧
  (countries_lookup db (Py.strip country) = None →
     ∀ text, resolve_parts db country text = None).
Proof.
  intros Hc Hs. unfold get_country_code, resolve_parts.
  split; [|split; [|split]].
  - intros ->. cbv zeta. rewrite (split_whole _ _ Hc). simpl.
    by destruct (countries_lookup db (Py.strip country)).
  - intros ->. cbv zeta.
    change (":" +:+ sub) with (String ":" sub).
    rewrite (split_at_sep _ _ _ Hc), (split_whole _ _ Hs). simpl.
    by destruct (countries_lookup db (Py.strip country)).
  - intros ->. cbv zeta.
    change (":" +:+ sub +:+ ":" +:+ rest)
      with (String ":" (sub +:+ String ":" rest)).
    rewrite (split_at_sep _ _ _ Hc), (split_at_sep _ _ _ Hs).
    cbn [nth length]. 
    destruct (countries_lookup db (Py.strip country)); [|done].
    destruct (Py.split ":" rest); reflexivity.
  - intros -> text. done.
Qed.

End resolver.


Lemma resolver_splits_at_every_colon_witness :
  get_country_code sample_db "Germany" = Some "DE" ∧
  get_country_code sample_db "Germany: Bayern" = Some "DE-BY" ∧
  get_country_code sample_db "Germany: Bayern:Oberbayern" = Some "DE-BY" ∧
  resolve_parts sample_db "Unknownland" (Some "x") = None.
Proof.
  destruct (resolver_splits_at_every_colon sample_db "Germany" " Bayern"
              "Oberbayern" eq_refl eq_refl) as (H1 & H2 & H3 & _).
  destruct (resolver_splits_at_every_colon sample_db "Unknownland" "" ""
              eq_refl eq_refl) as (_ & _ & _ & H4).
  split; [exact (H1 eq_refl)|].
  split; [exact (H2 eq_refl)|].
  split; [exact (H3 eq_refl)|].
  exact (H4 eq_refl (Some "x")).
Defined.

(** C7 as stated fails: the reference knows Atlantis and its subdivision
    "North:East"; with the split at the first colon only the name
    "Atlantis:North:East" would resolve to its code, but the subdivision
    text the code compares is "North" and the name resolves to nothing. *)
Lemma later_colons_are_dropped :
  Dict.get "Atlantis:North:East" country_codes = None ∧
  after_first_colon "Atlantis:North:East" = Some "North:East" ∧
  Py.strip (nth 1 (Py.split ":" "Atlantis:North:East") EmptyString) = "North" ∧
  spec_get_country_code sample_db "Atlantis:North:East" = Some "AT-NE" ∧
  get_country_code sample_db "Atlantis:North:East" = None.
Proof. repeat split; reflexivity. Qed.

(** ** Properties of the speed table extractor *)

Section speed_table.

Lemma for_each_app {S A} (body : S → A → res S) (st : S) (l1 l2 : list A) :
  for_each body st (l1 ++ l2)
  = st' ← for_each body st l1; for_each body st' l2.
Proof.
  revert st. induction l1 as [|a l1 IH]; intros st; simpl; [done|].
  destruct (body st a); simpl; [apply IH|done].
Qed.

(** *** Header rows *)

Lemma assign_run_ok (n pos : nat) (text : string) (names : list string) :
  (pos + n ≤ length names)%nat →
  assign_run n pos text names
  = Ok (take pos names ++ replicate n text ++ drop (pos + n) names).
Proof.
  revert pos names. induction n as [|n IH]; intros pos names Hlen; simpl.
  - rewrite Nat.add_0_r, take_drop. done.
  - destruct (Nat.ltb_spec pos (length names)); [|lia].
    rewrite IH by (rewrite length_insert; lia).
    f_equal.
    rewrite (take_S_r _ _ text) by (by apply list_lookup_insert_eq).
    rewrite take_insert_ge by lia.
    rewrite drop_insert_lt by lia.
    replace (pos + S n)%nat with (S pos + n)%nat by lia.
    by rewrite <- app_assoc.
Qed.

Lemma assign_run_raises (n pos : nat) (text : string) (names : list string) :
  (0 < n)%nat → (length names < pos + n)%nat →
  assign_run n pos text names = Raise IndexError.
Proof.
  revert pos names. induction n as [|n IH]; intros pos names Hn Hlen; [lia|].
  simpl. destruct (Nat.ltb_spec pos (length names)); [|done].
  apply IH; [|rewrite length_insert]; lia.
Qed.

Lemma assign_run_length (n pos : nat) (text : string)
    (names names' : list string) :
  assign_run n pos text names = Ok names' → length names' = length names.
Proof.
  revert pos names. induction n as [|n IH]; intros pos names; simpl.
  - by intros [= ->].
  - destruct (pos <? length names)%nat; [|done].
    intros H. apply IH in H. by rewrite length_insert in H.
Qed.

Lemma revise_th_length (names names' : list string) (ith : nat * node) :
  revise_th names ith = Ok names' → length names' = length names.
Proof.
  destruct ith as [i cell]. unfold revise_th.
  destruct (truthy (Dom.get_text "" cell)); [|by intros [= ->]].
  destruct (Dom.int_attr cell "colspan"); [|done]. simpl.
  apply assign_run_length.
Qed.

Lemma revise_loop_length (l : list (nat * node)) (names names' : list string) :
  for_each revise_th names l = Ok names' → length names' = length names.
Proof.
  revert names. induction l as [|ith l IH]; intros names; simpl.
  - by intros [= ->].
  - destruct (revise_th names ith) as [names1|] eqn:E; [|done]. simpl.
    intros H. apply IH in H. apply revise_th_length in E. lia.
Qed.

Lemma truthy_nonempty (s : string) : s ≠ "" → truthy s = true.
Proof. by destruct s. Qed.

(** C10: on a header row that comes after the column names are set, a
    header cell with text, standing as the i-th [th] of the row (counted
    from 0) and spanning k columns, overwrites the names i to i+k-1.  The
    position is the number of [th] tags before it in the row: neither the
    column spans of those tags nor the row helper's cache enter into it.
    When the names do not reach that far the assignment raises
    [IndexError]. *)
Theorem header_revision_by_ordinal (names names1 : list string)
    (pre post : list node) (cell : node) (k : Z) :
  names ≠ [] →
  revise_names names pre = Ok names1 →
  Dom.get_text "" cell ≠ "" →
  Dom.int_attr cell "colspan" = Ok k →
  let i := length pre in
  let text := Dom.get_text "" cell in
  let names2 :=
    take i names1 ++ replicate (Z.to_nat k) text
      ++ drop (i + Z.to_nat k) names1 in
  ((i + Z.to_nat k ≤ length names)%nat →
     revise_th names1 (i, cell) = Ok names2 ∧
     header_names names (pre ++ cell :: post)
     = for_each revise_th names2 (imap (λ j, pair (S i + j)%nat) post)) ∧
  (0 < k → (length names < i + Z.to_nat k)%nat →
     header_names names (pre ++ cell :: post) = Raise IndexError).
Proof.
  intros Hne Hpre Htext Hk i text names2.
  pose proof (revise_loop_length _ _ _ Hpre) as Hlen.
  assert (Hhead : header_names names (pre ++ cell :: post)
                  = names' ← revise_th names1 (i, cell);
                    for_each revise_th names'
                      (imap (λ j, pair (S i + j)%nat) post)).
  { unfold header_names.
    destruct names as [|n0 names]; [done|].
    destruct (pre ++ cell :: post) as [|x l] eqn:E;
      [by destruct pre|]. rewrite <- E. clear E.
    unfold revise_names, enumerate in *.
    rewrite imap_app, for_each_app, Hpre, imap_cons.
    cbn [mbind res_bind for_each]. rewrite Nat.add_0_r. fold i.
    destruct (revise_th names1 (i, cell)); [|done].
    cbn [mbind res_bind]. f_equal.
    apply imap_ext. intros j y _. simpl. f_equal. lia. }
  assert (Hth : revise_th names1 (i, cell)
                = assign_run (Z.to_nat k) i text names1).
  { unfold revise_th, text.
    rewrite (truthy_nonempty _ Htext), Hk. reflexivity. }
  split.
  - intros Hfit.
    assert (revise_th names1 (i, cell) = Ok names2) as Hok.
    { rewrite Hth. apply assign_run_ok. lia. }
    split; [done|]. by rewrite Hhead, Hok.
  - intros Hpos Hshort. rewrite Hhead, Hth.
    rewrite assign_run_raises; [done|lia|lia].
Qed.

Lemma header_revision_by_ordinal_witness :
  header_names ["A"; "B"; "C"; "D"] [th [("colspan", "2")] "X"; th [] "Y"]
  = Ok ["X"; "Y"; "C"; "D"] ∧
  header_names ["A"] [th [] "X"; th [] "Y"] = Raise IndexError.
Proof.
  split.
  - destruct (header_revision_by_ordinal ["A"; "B"; "C"; "D"]
                ["X"; "X"; "C"; "D"] [th [("colspan", "2")] "X"] []
                (th [] "Y") 1 ltac:(discriminate) eq_refl
                ltac:(discriminate) eq_refl) as [Hfit _].
    destruct Hfit as [_ Hrow]; [simpl; lia|]. exact Hrow.
  - destruct (header_revision_by_ordinal ["A"] ["X"] [th [] "X"] []
                (th [] "Y") 1 ltac:(discriminate) eq_refl
                ltac:(discriminate) eq_refl) as [_ Hshort].
    apply Hshort; simpl; lia.
Defined.

(** The carry-forward example of the specification. *)
Example header_carry_forward :
  header_names ["A"; "B"; "C"] [th [] ""; th [] "X"; th [] ""]
  = Ok ["A"; "X"; "C"].
Proof. reflexivity. Qed.

(** *** Rows *)

(** C5: when the name in column 0 of a data row does not resolve, the
    row loop appends the one warning "<name>: Unknown country /
    subdivision" and goes on to the next row; [result] is what it was
    before the row. *)
Theorem unresolved_row_is_skipped (db : pycountry)
    (speed_parse_func : string → option (list (string * string)))
    (st : speed_state) (row : node) (names : list string)
    (cache : TableRowHelper.cache) (td0 : node) :
  header_names (column_names st) (Dom.find_all_named "th" row) = Ok names →
  TableRowHelper.set_tds (td_cache st) (Dom.find_all_named "td" row)
  = Ok cache →
  Dom.find_all_named "td" row ≠ [] →
  TableRowHelper.get_td cache 0 = Ok td0 →
  (get_country_code db (Dom.get_text "" td0) = None
   ∨ get_country_code db (Dom.get_text "" td0) = Some "") →
  speed_row db speed_parse_func st row
  = Ok (SpeedState names (result st)
          (warnings st
             ++ [Dom.get_text "" td0 +:+ ": Unknown country / subdivision"])
          cache).
Proof.
  intros Hh Hs Htds H0 Hcode. unfold speed_row.
  rewrite Hh. cbn [mbind res_bind]. rewrite Hs. cbn [mbind res_bind].
  destruct (Dom.find_all_named "td" row) as [|x l]; [done|].
  rewrite H0. cbn [mbind res_bind].
  by destruct Hcode as [-> | ->].
Qed.

Lemma unresolved_row_is_skipped_witness :
  speed_row sample_db picky_parser
    (SpeedState ["Country"; "Road type"; "(default)"; "hgv"] [] []
       TableRowHelper.init)
    unknown_row
  = Ok (SpeedState ["Country"; "Road type"; "(default)"; "hgv"] []
          ["Unknownland: Unknown country / subdivision"]
          (<[0%nat := (1, td [] "Unknownland")]>
             (<[1%nat := (1, td [] "motorway")]>
                (<[2%nat := (1, td [] "100")]>
                   (<[3%nat := (1, td [] "80")]> ∅))))).
Proof.
  apply (unresolved_row_is_skipped sample_db picky_parser
           (SpeedState ["Country"; "Road type"; "(default)"; "hgv"] [] []
              TableRowHelper.init)
           unknown_row ["Country"; "Road type"; "(default)"; "hgv"]
           (<[0%nat := (1, td [] "Unknownland")]>
              (<[1%nat := (1, td [] "motorway")]>
                 (<[2%nat := (1, td [] "100")]>
                    (<[3%nat := (1, td [] "80")]> ∅))))
           (td [] "Unknownland")).
  - reflexivity.
  - vm_compute; reflexivity.
  - discriminate.
  - vm_compute; reflexivity.
  - left. reflexivity.
Defined.

(** *** Cells the parser fails on *)

Lemma handler_name_unbound :
  "country_and_subdivision_name" ∉ parse_speed_table_locals ++ module_names.
Proof.
  unfold parse_speed_table_locals, module_names. simpl. intros H.
  repeat (apply elem_of_cons in H as [H|H]; [discriminate H|]).
  by apply elem_of_nil in H.
Qed.

(** Whenever the parser raises on the text of a cell, the column loop
    raises [NameError]. *)
Lemma speed_cell_parse_failure
    (speed_parse_func : string → option (list (string * string)))
    (cache : TableRowHelper.cache) (names : list string)
    (road_tags : list (string * string)) (col_idx : nat)
    (cell : node) (vehicle_type : string) :
  TableRowHelper.get_td cache col_idx = Ok cell →
  Dom.get_text "" cell ≠ "" →
  names !! col_idx = Some vehicle_type →
  speed_parse_func (Dom.get_text "" cell) = None →
  speed_cell speed_parse_func cache names road_tags col_idx
  = Raise (NameError "country_and_subdivision_name").
Proof.
  intros Hc Ht Hn Hf. unfold speed_cell.
  rewrite Hc. cbn [mbind res_bind].
  by rewrite (truthy_nonempty _ Ht), Hn, Hf.
Qed.

Lemma for_each_raise {S A} (body : S → A → res S) (st st1 : S)
    (l1 l2 : list A) (a : A) (e : exn) :
  for_each body st l1 = Ok st1 →
  body st1 a = Raise e →
  for_each body st (l1 ++ a :: l2) = Raise e.
Proof.
  intros H1 Ha. rewrite for_each_app, H1. cbn [mbind res_bind for_each].
  by rewrite Ha.
Qed.

(** A row is lost with the first of its cells the parser fails on: the
    row loop raises [NameError] and nothing of the row is recorded. *)
Lemma speed_row_parse_failure (db : pycountry)
    (speed_parse_func : string → option (list (string * string)))
    (st : speed_state) (row : node) (names : list string)
    (cache : TableRowHelper.cache) (td0 td1 cell : node)
    (country_code vehicle_type : string) (before after : list nat)
    (col_idx : nat) (road_tags : list (string * string)) :
  header_names (column_names st) (Dom.find_all_named "th" row) = Ok names →
  TableRowHelper.set_tds (td_cache st) (Dom.find_all_named "td" row)
  = Ok cache →
  Dom.find_all_named "td" row ≠ [] →
  TableRowHelper.get_td cache 0 = Ok td0 →
  get_country_code db (Dom.get_text "" td0) = Some country_code →
  country_code ≠ "" →
  TableRowHelper.get_td cache 1 = Ok td1 →
  seq 2 (length names - 2) = before ++ col_idx :: after →
  for_each (speed_cell speed_parse_func cache names) [] before
  = Ok road_tags →
  TableRowHelper.get_td cache col_idx = Ok cell →
  Dom.get_text "" cell ≠ "" →
  names !! col_idx = Some vehicle_type →
  speed_parse_func (Dom.get_text "" cell) = None →
  speed_row db speed_parse_func st row
  = Raise (NameError "country_and_subdivision_name").
Proof.
  intros Hh Hs Htds H0 Hcode Hne H1 Hcols Hbefore Hc Ht Hn Hf.
  unfold speed_row.
  rewrite Hh. cbn [mbind res_bind]. rewrite Hs. cbn [mbind res_bind].
  destruct (Dom.find_all_named "td" row) as [|x l]; [done|].
  rewrite H0. cbn [mbind res_bind]. rewrite Hcode.
  destruct country_code as [|c0 cc]; [done|].
  rewrite H1. cbn [mbind res_bind]. rewrite Hcols.
  rewrite (for_each_raise _ _ _ _ _ _ _ Hbefore
             (speed_cell_parse_failure _ _ _ _ _ _ _ Hc Ht Hn Hf)).
  reflexivity.
Qed.

(** The end-to-end scenario of the specification. *)
Example end_to_end_scenario (db : pycountry) :
  parse_speed_table db (λ s, Some [("maxspeed", s)]) bonaire_table
  = (Ok (SpeedTable
           [("NL-BQ1",
             [RoadClass [("maxspeed", "100"); ("maxspeed:hgv", "80")]
                (Some "motorway")])]
           []),
     bonaire_table).
Proof. vm_compute. reflexivity. Qed.

(** C1 does not hold of the code: on the table of the end-to-end scenario
    with one cell the parser fails on, the call ends in a [NameError]
    raised by the handler of the parse failure; no warning and no entry
    come back. *)
Theorem failed_speed_parse_raises_name_error (db : pycountry) :
  parse_speed_table db picky_parser unparsable_table
  = (Raise (NameError "country_and_subdivision_name"), unparsable_table).
Proof. vm_compute. reflexivity. Qed.

End speed_table.

(** ** Properties of the decoration stripper *)

Section stripper.

Lemma decompose_all_tag (f : node → bool) (nm : string)
    (a : list (string * string)) (cs : list node) :
  Dom.decompose_all f (Tag nm a cs) = Tag nm a (prune f cs).
Proof.
  simpl. f_equal. induction cs as [|c cs IH]; simpl; [done|].
  by rewrite IH.
Qed.

Lemma descendants_tag (nm : string) (a : list (string * string))
    (cs : list node) :
  Dom.descendants (Tag nm a cs) = Dom.descendants_of_list cs.
Proof.
  simpl. induction cs as [|c cs IH]; simpl; [done|]. by rewrite IH.
Qed.

Lemma junk_decompose_all (n : node) :
  junk (Dom.decompose_all is_uninteresting n) = junk n.
Proof. by destruct n. Qed.

Lemma find_all_nil (f : node → bool) (n : node) :
  Forall (λ d, Dom.is_tag d && f d = false) (Dom.descendants n) ↔
  Dom.find_all f n = [].
Proof.
  unfold Dom.find_all.
  induction (Dom.descendants n) as [|d l IH]; [done|].
  rewrite Forall_cons, filter_cons.
  destruct (decide (Dom.is_tag d && f d = true)) as [Ht|Hf].
  - split; [intros [H _]; congruence|done].
  - rewrite <- IH. split; [by intros [_ ?]|].
    intros H. split; [|done]. by destruct (Dom.is_tag d && f d).
Qed.

(** After the stripping loop no descendant is a [sup] or an [img]. *)
Lemma decompose_all_clean (n : node) :
  Forall (λ d, junk d = false)
         (Dom.descendants (Dom.decompose_all is_uninteresting n)).
Proof.
  induction n as [s|nm a cs IH] using node_children_ind; [constructor|].
  rewrite decompose_all_tag, descendants_tag.
  induction cs as [|c cs IHcs]; [constructor|].
  inversion_clear IH as [|? ? Hc Hcs].
  cbn [prune]. fold (junk c).
  destruct (junk c) eqn:Ej; [by apply IHcs|].
  unfold Dom.descendants_of_list. cbn [flat_map].
  constructor; [by rewrite junk_decompose_all|].
  apply Forall_app. split; [done|]. by apply IHcs.
Qed.

(** A tree without such descendants is left as it is. *)
Lemma decompose_all_noop (n : node) :
  Forall (λ d, junk d = false) (Dom.descendants n) →
  Dom.decompose_all is_uninteresting n = n.
Proof.
  induction n as [s|nm a cs IH] using node_children_ind; [done|].
  rewrite decompose_all_tag, descendants_tag. intros Hall. f_equal.
  induction cs as [|c cs IHcs]; [done|].
  inversion_clear IH as [|? ? Hc Hcs].
  unfold Dom.descendants_of_list in Hall. cbn [flat_map] in Hall.
  apply Forall_cons in Hall as [Hj Hall].
  apply Forall_app in Hall as [Hd Hall].
  cbn [prune]. fold (junk c). rewrite Hj.
  by rewrite (Hc Hd), (IHcs Hcs Hall).
Qed.

(** C8, amended: both extractors strip the table object the caller
    passed in, no working copy is made: when either of them is through,
    the caller's table is the tree it was with every [sup] and [img]
    descendant cut out, so it holds no decoration element any more; a
    table that had none is unchanged. *)
Theorem junk_is_cut_from_the_callers_table (db : pycountry)
    (speed_parse_func : string → option (list (string * string)))
    (table : node) :
  (parse_road_types_table table).2
  = Dom.decompose_all is_uninteresting table ∧
  (parse_speed_table db speed_parse_func table).2
  = Dom.decompose_all is_uninteresting table ∧
  Dom.find_all is_uninteresting
    (Dom.decompose_all is_uninteresting table) = [] ∧
  (Dom.find_all is_uninteresting table = [] →
     Dom.decompose_all is_uninteresting table = table).
Proof.
  split; [done|]. split; [done|]. split.
  - apply find_all_nil, decompose_all_clean.
  - intros H. apply decompose_all_noop. by apply find_all_nil.
Qed.

Lemma junk_is_cut_from_the_callers_table_witness :
  (parse_road_types_table bonaire_table).2 = bonaire_table.
Proof.
  destruct (junk_is_cut_from_the_callers_table sample_db picky_parser
              bonaire_table) as (-> & _ & _ & Hnoop).
  apply Hnoop. reflexivity.
Defined.

(** C8 as stated fails: the footnote mark of the caller's table is gone
    once either extractor has run. *)
Lemma callers_table_loses_its_decoration :
  Dom.find_all is_uninteresting footnote_table = [Tag "sup" [] [Text "1"]] ∧
  Dom.find_all is_uninteresting (parse_road_types_table footnote_table).2
  = [] ∧
  Dom.find_all is_uninteresting
    (parse_speed_table sample_db picky_parser footnote_table).2 = [] ∧
  (parse_road_types_table footnote_table).2 ≠ footnote_table.
Proof. repeat split; (reflexivity || discriminate). Qed.

End stripper.

(** ** Properties of the placeholder validator *)

Section validator.

(** *** The pattern *)

Lemma lazy_run_spec (s m rest : string) :
  Re.lazy_run s = Some (m, rest) →
  s = m +:+ "}" +:+ rest ∧
  has_char "}" m = false ∧ has_char Re.newline m = false.
Proof.
  revert m. induction s as [|c s IH]; intros m; simpl; [done|].
  destruct (Ascii.eqb_spec c "}") as [->|Hb].
  - by intros [= <- <-].
  - destruct (Ascii.eqb_spec c Re.newline) as [->|Hn]; [done|].
    destruct (Re.lazy_run s) as [[m' rest']|]; [|done].
    simpl. intros [= <- <-].
    destruct (IH m' eq_refl) as (-> & H1 & H2).
    split; [done|]. simpl. rewrite H1, H2.
    split; [by destruct (Ascii.eqb_spec c "}")
           |by destruct (Ascii.eqb_spec c Re.newline)].
Qed.

Lemma rest_is_shorter (s m rest : string) :
  Re.match_braces s = Some (m, rest) →
  (String.length rest < String.length s)%nat.
Proof.
  destruct s as [|c s]; [done|]. simpl.
  destruct (Ascii.eqb c "{"); [|done].
  revert m. induction s as [|d s IH]; intros m; simpl; [done|].
  destruct (Ascii.eqb d "}"); [intros [= <- <-]; lia|].
  destruct (Ascii.eqb d Re.newline); [done|].
  destruct (Re.lazy_run s) as [[m' rest']|]; [|done].
  simpl. intros [= <- <-]. specialize (IH m' eq_refl). lia.
Qed.

(** [String.length s] scan steps are enough for [finditer_from]. *)
Lemma finditer_from_fuel (fuel1 fuel2 : nat) (s : string) :
  (String.length s ≤ fuel1)%nat → (String.length s ≤ fuel2)%nat →
  Re.finditer_from fuel1 s = Re.finditer_from fuel2 s.
Proof.
  revert fuel2 s. induction fuel1 as [|fuel1 IH]; intros fuel2 s H1 H2.
  - destruct s; [|simpl in H1; lia]. by destruct fuel2.
  - destruct fuel2 as [|fuel2]; [destruct s; [done|simpl in H2; lia]|].
    destruct s as [|c s]; [done|]. cbn [Re.finditer_from].
    destruct (Re.match_braces (String c s)) as [[m rest]|] eqn:Em.
    + apply rest_is_shorter in Em. f_equal. apply IH; lia.
    + simpl in H1, H2. apply IH; lia.
Qed.

(** Every placeholder found stands between a brace and the first
    closing brace after it, on one line. *)
Lemma placeholders_sound (s p : string) :
  p ∈ Re.placeholders s →
  (∃ a b, s = a +:+ "{" +:+ p +:+ "}" +:+ b) ∧
  has_char "}" p = false ∧ has_char Re.newline p = false.
Proof.
  unfold Re.placeholders. generalize (String.length s) as fuel.
  intros fuel. revert s. induction fuel as [|fuel IH]; intros s; simpl.
  - intros H. by apply elem_of_nil in H.
  - destruct s as [|c s]; [intros H; by apply elem_of_nil in H|].
    destruct (Re.match_braces (String c s)) as [[m rest]|] eqn:Em.
    + assert (String c s = "{" +:+ m +:+ "}" +:+ rest
              ∧ has_char "}" m = false ∧ has_char Re.newline m = false)
        as (Hs & Hm1 & Hm2).
      { unfold Re.match_braces in Em.
        destruct (Ascii.eqb_spec c "{") as [->|]; [|done].
        destruct (lazy_run_spec _ _ _ Em) as (-> & ? & ?). done. }
      intros H. apply elem_of_cons in H as [->|H].
      * split; [|done]. exists "", rest. by rewrite Hs.
      * destruct (IH _ H) as ((a & b & Hrest) & ? & ?). split; [|done].
        exists ("{" +:+ m +:+ "}" +:+ a), b.
        rewrite Hs, Hrest. by rewrite !append_assoc.
    + intros H. destruct (IH _ H) as ((a & b & ->) & ? & ?).
      split; [|done]. by exists (String c a), b.
Qed.

(** *** The loops *)

Lemma check_placeholders_spec (all : road_types) (road_type : string)
    (ps : list string) (warnings : list string) :
  st_for (check_placeholder road_type) warnings ps all
  = (warnings
       ++ (unmapped_warning road_type
             <$> filter (λ p, Dict.contains p all = false) ps),
     all).
Proof.
  revert warnings. induction ps as [|p ps IH]; intros warnings.
  - simpl. by rewrite app_nil_r.
  - cbn [st_for]. unfold st_bind at 1.
    unfold check_placeholder at 1, st_bind, dict_contains, st_ret.
    rewrite IH, filter_cons.
    destruct (Dict.contains p all) eqn:E.
    + by rewrite decide_False.
    + rewrite decide_True by done. by rewrite fmap_cons, <- app_assoc.
Qed.

Lemma check_filters_spec (all : road_types) (road_type : string)
    (fs : list string) (warnings : list string) :
  st_for (check_filter road_type) warnings fs all
  = (warnings
       ++ (unmapped_warning road_type
             <$> filter (λ p, Dict.contains p all = false)
                   (flat_map Re.placeholders fs)),
     all).
Proof.
  revert warnings. induction fs as [|f fs IH]; intros warnings.
  - simpl. by rewrite app_nil_r.
  - cbn [st_for flat_map]. unfold st_bind at 1.
    unfold check_filter at 1. rewrite check_placeholders_spec, IH.
    by rewrite filter_app, fmap_app, app_assoc.
Qed.

Lemma check_road_types_spec (all items : road_types)
    (warnings : list string) :
  st_for check_road_type warnings items all
  = (warnings
       ++ flat_map (λ item,
            unmapped_warning item.1
              <$> filter (λ p, Dict.contains p all = false)
                    (flat_map Re.placeholders (all_filters item.2)))
            items,
     all).
Proof.
  revert warnings. induction items as [|[road_type fs] items IH];
    intros warnings.
  - simpl. by rewrite app_nil_r.
  - cbn [st_for]. unfold st_bind at 1.
    unfold check_road_type at 1. rewrite check_filters_spec, IH.
    cbn [flat_map fst snd]. by rewrite app_assoc.
Qed.

Lemma validate_road_types_run (all : road_types) :
  validate_road_types all
  = (flat_map (λ item,
       unmapped_warning item.1
         <$> filter (λ p, Dict.contains p all = false)
               (flat_map Re.placeholders (all_filters item.2)))
       all,
     all).
Proof.
  unfold validate_road_types, st_bind, dict_items.
  by rewrite check_road_types_spec.
Qed.

(** *** The tokens of the specification and the matches of the pattern *)

Lemma char_split (ch : ascii) (s : string) :
  has_char ch s = false ∨
  ∃ a b, s = a +:+ String ch b ∧ has_char ch a = false.
Proof.
  induction s as [|c s IH]; [by left|]. simpl.
  destruct (Ascii.eqb_spec c ch) as [->|Hc].
  - right. by exists "", s.
  - destruct IH as [->|(a & b & -> & Ha)]; [by left|].
    right. exists (String c a), b. split; [done|]. simpl.
    rewrite Ha. by destruct (Ascii.eqb_spec c ch).
Qed.

Lemma all_chars_app (ok : ascii → bool) (a b : string) :
  all_chars ok (a +:+ b) = all_chars ok a && all_chars ok b.
Proof.
  induction a as [|c a IH]; [done|].
  rewrite append_cons. simpl. by rewrite IH, andb_assoc.
Qed.

Lemma all_chars_same_line (p : string) :
  all_chars same_line p = true ↔ has_char Re.newline p = false.
Proof.
  induction p as [|c p IH]; [done|]. simpl. unfold same_line at 1.
  change (ascii_of_nat 10) with Re.newline.
  destruct (Ascii.eqb c Re.newline); simpl; [done|]. apply IH.
Qed.

Lemma first_char_le (ch : ascii) (p p' r r' : string) :
  has_char ch p = false →
  p +:+ String ch r = p' +:+ String ch r' →
  (String.length p ≤ String.length p')%nat.
Proof.
  revert p'. induction p as [|c p IH]; intros p' Hp Heq; [simpl; lia|].
  simpl in Hp. apply orb_false_iff in Hp as [Hc Hp].
  destruct p' as [|c' p'].
  - rewrite append_cons, append_empty in Heq. injection Heq as -> _.
    by rewrite (proj2 (Ascii.eqb_eq ch ch)) in Hc.
  - rewrite !append_cons in Heq. injection Heq as _ Heq.
    specialize (IH p' Hp Heq). simpl. lia.
Qed.

Lemma first_char_unique (ch : ascii) (p p' r r' : string) :
  has_char ch p = false → has_char ch p' = false →
  p +:+ String ch r = p' +:+ String ch r' →
  p = p' ∧ r = r'.
Proof.
  revert p'. induction p as [|c p IH]; intros p' Hp Hp' Heq.
  - destruct p' as [|c' p'].
    + rewrite !append_empty in Heq. by injection Heq as ->.
    + rewrite append_cons, append_empty in Heq. injection Heq as <- _.
      simpl in Hp'. by rewrite (proj2 (Ascii.eqb_eq ch ch)) in Hp'.
  - simpl in Hp. apply orb_false_iff in Hp as [Hc Hp].
    destruct p' as [|c' p'].
    + rewrite append_cons, append_empty in Heq. injection Heq as -> _.
      by rewrite (proj2 (Ascii.eqb_eq ch ch)) in Hc.
    + simpl in Hp'. apply orb_false_iff in Hp' as [_ Hp'].
      rewrite !append_cons in Heq. injection Heq as -> Heq.
      by destruct (IH p' Hp Hp' Heq) as [-> ->].
Qed.

(** The shortest run is the one without a closing brace. *)
Lemma token_at_iff (ok : ascii → bool) (s p rest : string) :
  token_at ok s p rest ↔
  s = "{" +:+ p +:+ "}" +:+ rest ∧
  has_char "}" p = false ∧ all_chars ok p = true.
Proof.
  split.
  - intros [[-> Hok] Hmin]. split; [done|]. split; [|done].
    destruct (char_split "}" p) as [Hp|(p1 & p2 & -> & Hp1)]; [done|].
    exfalso.
    rewrite all_chars_app in Hok. apply andb_true_iff in Hok as [Hok1 _].
    assert (Hle := Hmin p1 (p2 +:+ "}" +:+ rest)).
    rewrite append_length in Hle. simpl in Hle.
    enough (String.length p1 + S (String.length p2) ≤ String.length p1)%nat
      by lia.
    apply Hle. split; [|done].
    rewrite !append_assoc. by rewrite append_cons.
  - intros (-> & Hp & Hok). split; [done|].
    intros p' rest' [Heq _].
    change ("{" +:+ p +:+ "}" +:+ rest)
      with (String "{" (p +:+ String "}" rest)) in Heq.
    change ("{" +:+ p' +:+ "}" +:+ rest')
      with (String "{" (p' +:+ String "}" rest')) in Heq.
    injection Heq as Heq. by apply (first_char_le _ _ _ _ _ Hp Heq).
Qed.

Lemma lazy_run_token (p b : string) :
  has_char "}" p = false → has_char Re.newline p = false →
  Re.lazy_run (p +:+ "}" +:+ b) = Some (p, b).
Proof.
  induction p as [|c p IH]; intros Hb Hn; [done|].
  simpl in Hb, Hn. apply orb_false_iff in Hb as [Hb1 Hb2].
  apply orb_false_iff in Hn as [Hn1 Hn2].
  rewrite append_cons. simpl. rewrite Hb1, Hn1, (IH Hb2 Hn2). done.
Qed.

(** The pattern matches at the head of a text exactly where a token of
    one line begins it. *)
Lemma token_at_match (s p rest : string) :
  token_at same_line s p rest ↔ Re.match_braces s = Some (p, rest).
Proof.
  rewrite token_at_iff, all_chars_same_line. split.
  - intros (-> & Hb & Hn).
    change ("{" +:+ p +:+ "}" +:+ rest)
      with (String "{" (p +:+ "}" +:+ rest)).
    unfold Re.match_braces. cbn [Ascii.eqb Bool.eqb].
    by apply lazy_run_token.
  - destruct s as [|c s]; [done|]. unfold Re.match_braces.
    destruct (Ascii.eqb_spec c "{") as [->|]; [|done].
    intros Hrun. by destruct (lazy_run_spec _ _ _ Hrun) as (-> & ? & ?).
Qed.

Lemma token_at_unique (ok : ascii → bool) (s p p' rest rest' : string) :
  token_at ok s p rest → token_at ok s p' rest' → p = p' ∧ rest = rest'.
Proof.
  rewrite !token_at_iff. intros (-> & Hp & _) (Heq & Hp' & _).
  change ("{" +:+ p +:+ "}" +:+ rest)
    with (String "{" (p +:+ String "}" rest)) in Heq.
  change ("{" +:+ p' +:+ "}" +:+ rest')
    with (String "{" (p' +:+ String "}" rest')) in Heq.
  injection Heq as Heq. by apply (first_char_unique "}").
Qed.

(** A text has one list of tokens. *)
Lemma scan_functional (ok : ascii → bool) (s : string)
    (ps ps' : list string) :
  scan ok s ps → scan ok s ps' → ps = ps'.
Proof.
  intros H. revert ps'.
  induction H as [|s p rest ps Htok _ IH|c s ps Hno _ IH]; intros ps' H'.
  - inversion H' as [|s0 p0 rest0 ps0 Htok0 _|]; subst; [done|].
    by destruct Htok0 as [[? _] _].
  - inversion H' as [|s0 p0 rest0 ps0 Htok0 Hrest0|c0 s0 ps0 Hno0 _]; subst.
    + by destruct Htok as [[? _] _].
    + destruct (token_at_unique _ _ _ _ _ _ Htok Htok0) as [-> ->].
      f_equal. by apply IH.
    + by destruct (Hno0 _ _ Htok).
  - inversion H' as [|s0 p0 rest0 ps0 Htok0 _|c0 s0 ps0 _ Hrest0]; subst.
    + by destruct (Hno _ _ Htok0).
    + by apply IH.
Qed.

(** The matches of the pattern are the tokens of one line. *)
Lemma finditer_scan (fuel : nat) (s : string) :
  (String.length s ≤ fuel)%nat →
  scan same_line s (Re.finditer_from fuel s).
Proof.
  revert s. induction fuel as [|fuel IH]; intros s Hlen.
  - destruct s; [constructor|simpl in Hlen; lia].
  - destruct s as [|c s]; [constructor|]. cbn [Re.finditer_from].
    destruct (Re.match_braces (String c s)) as [[m rest]|] eqn:Em.
    + apply scan_token with (rest := rest); [by apply token_at_match|].
      apply IH. apply rest_is_shorter in Em. simpl in Hlen, Em. lia.
    + apply scan_skip.
      * intros p rest Htok. apply token_at_match in Htok. congruence.
      * apply IH. simpl in Hlen. lia.
Qed.

Lemma placeholders_scan (f : string) : scan same_line f (Re.placeholders f).
Proof. by apply finditer_scan. Qed.

Lemma all_filters_present (fs : filters) :
  all_filters fs = present_filters fs.
Proof.
  unfold all_filters, present_filters. cbn [omap list_omap].
  by destruct (Dict.get "filter" fs), (Dict.get "fuzzyFilter" fs),
     (Dict.get "relationFilter" fs).
Qed.

Lemma not_a_key {V} (k : string) (d : list (string * V)) :
  Dict.contains k d = false ↔ k ∉ d.*1.
Proof.
  unfold Dict.contains. induction d as [|[k' v'] d IH]; simpl.
  - split; [|done]. intros _ H. by apply elem_of_nil in H.
  - rewrite not_elem_of_cons. destruct (String.eqb_spec k' k) as [->|Hk].
    + split; [done|]. by intros [? _].
    + rewrite IH. split; [by split|]. by intros [_ ?].
Qed.


(** C9, amended: [validate_road_types] goes through the road types in
    order and, for each, through its present filters in the order filter,
    fuzzyFilter, relationFilter; every token found in a filter whose inner
    text is not a key of the mapping adds exactly one warning
    "<road-type>: Unable to map '<placeholder>'", nothing else adds one,
    and the mapping is left as it was.  A token is an opening brace, the
    shortest possible run of characters other than the line feed, and a
    closing brace; the tokens of a text are found from left to right, and
    every text has exactly one list of them.  For the road type "trunk"
    with the filter "highway={primary}" and no road type "primary" the
    result is the one warning for "trunk" and "primary". *)
Theorem validate_road_types_warns_per_unmapped_token (all : road_types) :
  (validate_road_types all).2 = all ∧
  (∀ tokens : string → list string,
     (∀ f, scan same_line f (tokens f)) →
     (validate_road_types all).1 = expected_warnings tokens all) ∧
  (∃ tokens : string → list string, ∀ f, scan same_line f (tokens f)) ∧
  (∀ f ps ps', scan same_line f ps → scan same_line f ps' → ps = ps') ∧
  validate_road_types trunk_types
  = (["trunk: Unable to map 'primary'"], trunk_types).
Proof.
  split; [by rewrite validate_road_types_run|].
  split; [|split; [|split; [|reflexivity]]].
  - intros tokens Htokens. rewrite validate_road_types_run. cbn [fst].
    unfold expected_warnings. apply flat_map_ext. intros [road_type fs].
    cbn [fst snd]. rewrite all_filters_present.
    rewrite (flat_map_ext Re.placeholders tokens).
    + by rewrite (list_filter_iff _ (λ p, p ∉ all.*1) _
                    (λ p, not_a_key p all)).
    + intros f. apply (scan_functional same_line f);
        [apply placeholders_scan|apply Htokens].
  - exists Re.placeholders. apply placeholders_scan.
  - apply scan_functional.
Qed.

Lemma validate_road_types_witness :
  (validate_road_types trunk_types).1
  = expected_warnings Re.placeholders trunk_types ∧
  expected_warnings Re.placeholders trunk_types
  = ["trunk: Unable to map 'primary'"].
Proof.
  destruct (validate_road_types_warns_per_unmapped_token trunk_types)
    as (_ & H & _).
  split; [exact (H Re.placeholders placeholders_scan)|].
  vm_compute. reflexivity.
Defined.

(** C9 as stated fails: the filter of "trunk" holds a token whose run
    goes over a line feed and whose inner text is not a key of the
    mapping, so the warnings asked for are the one for "trunk" and that
    text; the code returns none. *)
Lemma token_across_lines_gets_no_warning :
  token_at any_char split_filter split_token "" ∧
  (split_token ∉ split_types.*1) ∧
  (∀ tokens : string → list string,
     (∀ f, scan any_char f (tokens f)) →
     expected_warnings tokens split_types
     = ["trunk: Unable to map '" +:+ split_token +:+ "'"]) ∧
  (validate_road_types split_types).1 = [].
Proof.
  assert (Htok : token_at any_char split_filter split_token "").
  { apply token_at_iff. by repeat split. }
  split; [done|]. split; [|split; [|reflexivity]].
  - intros H. apply elem_of_cons in H as [H|H]; [discriminate H|].
    by apply elem_of_nil in H.
  - intros tokens Htokens.
    assert (Hf : tokens split_filter = [split_token]).
    { apply (scan_functional any_char split_filter); [apply Htokens|].
      apply scan_token with (rest := ""); [done|constructor]. }
    unfold expected_warnings, split_types, present_filters.
    cbn [flat_map omap list_omap Dict.get fst snd].
    change (String.eqb "filter" "filter") with true.
    change (String.eqb "filter" "fuzzyFilter") with false.
    change (String.eqb "filter" "relationFilter") with false.
    cbn [flat_map omap list_omap Dict.get fst snd mbind option_bind].
    rewrite Hf. vm_compute. reflexivity.
Qed.

End validator.

(** ** Further properties of the row helper *)

Section row_helper_more.
Import TableRowHelper.

Lemma skip_at_free (c : cache) (col : nat) :
  c !! col = None → skip c col = col.
Proof.
  unfold skip. intros H. destruct (size c) as [|n]; simpl; [done|].
  by rewrite H.
Qed.

(** X4: the [while] loop of [set_tds] ends, and it ends on the first
    column at or after the cursor that the cache does not hold: every
    column it passed is occupied. *)
Theorem cursor_stops_at_first_free_column (c : cache) (col : nat) :
  (col ≤ skip c col)%nat ∧
  c !! skip c col = None ∧
  ∀ j, (col ≤ j < skip c col)%nat → is_Some (c !! j).
Proof.
  split; [apply skip_ge|]. split; [apply skip_free|]. apply skip_occupied.
Qed.

(** X3: a row without cells is one elapsed row for the cache: an entry
    with one row left is gone, any other entry has its count lowered by
    one, and no column is gained. *)
Theorem empty_row_only_expires (c : cache) (j : nat) :
  ∃ c', set_tds c [] = Ok c' ∧
    (c !! j = None → c' !! j = None) ∧
    (∀ cell, c !! j = Some (1, cell) → c' !! j = None) ∧
    (∀ n cell, c !! j = Some (n, cell) → n ≠ 1 →
       c' !! j = Some (n - 1, cell)).
Proof.
  exists (expire c). split; [apply set_tds_nil|].
  rewrite expire_lookup. split; [by intros ->|]. split.
  - by intros cell ->.
  - intros n cell -> Hn. simpl. unfold expire_entry. simpl.
    by destruct (Z.eqb_spec n 1).
Qed.

Lemma expire_last_rows (c : cache) (j : nat) :
  (∀ k e, c !! k = Some e → e.1 = 1) → expire c !! j = None.
Proof.
  intros Hall. rewrite expire_lookup.
  destruct (c !! j) as [e|] eqn:E; [|done].
  simpl. unfold expire_entry. by rewrite (Hall j e E).
Qed.

Lemma place_plain (cell : node) (c : cache) (col : nat) :
  plain cell → c !! col = None →
  place_td cell c col = Ok (<[col := (1, cell)]> c, S col).
Proof.
  intros [Hr Hc] Hfree. unfold place_td, Dom.int_attr.
  rewrite Hr, Hc, (skip_at_free _ _ Hfree). reflexivity.
Qed.

Lemma insert_plain (tds : list node) (c : cache) (col : nat) :
  Forall plain tds →
  (∀ j, (col ≤ j)%nat → c !! j = None) →
  ∃ c', insert_tds tds c col = Ok (c', (col + length tds)%nat) ∧
    ∀ j, c' !! j
         = if decide (col ≤ j)%nat
           then (λ cell, (1, cell)) <$> tds !! (j - col)%nat
           else c !! j.
Proof.
  revert c col. induction tds as [|cell tds IH]; intros c col Hp Hfree.
  - exists c. split; [simpl; do 3 f_equal; lia|].
    intros j. case_decide; [|done]. by rewrite Hfree.
  - inversion_clear Hp as [|? ? Hcell Htds].
    destruct (IH (<[col := (1, cell)]> c) (S col) Htds) as (c' & Hins & Hc').
    { intros j Hj. rewrite lookup_insert_ne by lia. apply Hfree. lia. }
    exists c'. split.
    + cbn [insert_tds]. rewrite (place_plain _ _ _ Hcell (Hfree col (le_n _))).
      cbn [mbind res_bind]. rewrite Hins.
      replace (col + length (cell :: tds))%nat with (S col + length tds)%nat
        by (simpl; lia).
      done.
    + intros j. rewrite Hc'.
      destruct (decide (j = col)) as [->|Hne].
      * rewrite decide_False by lia. rewrite decide_True by lia.
        rewrite Nat.sub_diag. apply lookup_insert_eq.
      * rewrite lookup_insert_ne by done.
        case_decide; case_decide; try lia; [|done].
        replace (j - col)%nat with (S (j - S col)) by lia. done.
Qed.

Lemma set_tds_plain (c : cache) (tds : list node) :
  (∀ k e, c !! k = Some e → e.1 = 1) →
  Forall plain tds →
  ∃ c', set_tds c tds = Ok c' ∧
    ∀ j, c' !! j = (λ cell, (1, cell)) <$> tds !! j.
Proof.
  intros Hall Hp.
  destruct (insert_plain tds (expire c) 0 Hp) as (c' & Hins & Hc').
  { intros j _. by apply expire_last_rows. }
  exists c'. split; [unfold set_tds; by rewrite Hins|].
  intros j. rewrite Hc', decide_True by lia. by rewrite Nat.sub_0_r.
Qed.

Lemma run_plain (rows : list (list node)) (c : cache) :
  (∀ k e, c !! k = Some e → e.1 = 1) →
  Forall (Forall plain) rows →
  ∃ c', run c rows = Ok c' ∧ ∀ k e, c' !! k = Some e → e.1 = 1.
Proof.
  revert c. induction rows as [|tds rows IH]; intros c Hall Hp.
  - by exists c.
  - inversion_clear Hp as [|? ? Htds Hrows].
    destruct (set_tds_plain c tds Hall Htds) as (c1 & Hset & Hc1).
    destruct (IH c1) as (c' & Hrun & Hc'); [|done|].
    + intros k e. rewrite Hc1.
      destruct (tds !! k); simpl; [by intros [= <-]|done].
    + exists c'. split; [|done]. simpl. by rewrite Hset.
Qed.

(** X1: in a table none of whose cells carries a [rowspan] or [colspan]
    attribute, [get_td(i)] after [set_tds(tds)] is the i-th cell of [tds],
    whatever rows came before; an index past the end of the row raises
    [KeyError]. *)
Theorem plain_rows_are_indexed (rows : list (list node)) (tds : list node) :
  Forall (Forall plain) rows →
  Forall plain tds →
  ∃ c c', run init rows = Ok c ∧ set_tds c tds = Ok c' ∧
    ∀ i, get_td c' i
         = match tds !! i with
           | Some cell => Ok cell
           | None => Raise (KeyError i)
           end.
Proof.
  intros Hrows Htds.
  destruct (run_plain rows init) as (c & Hrun & Hc); [done|done|].
  destruct (set_tds_plain c tds Hc Htds) as (c' & Hset & Hc').
  exists c, c'. split; [done|]. split; [done|].
  intros i. unfold get_td. rewrite Hc'. by destruct (tds !! i).
Qed.

Lemma plain_rows_are_indexed_witness :
  ∃ c c', run init [plain_row] = Ok c ∧ set_tds c [cell_D; cell_A] = Ok c' ∧
    get_td c' 1 = Ok cell_A ∧ get_td c' 2 = Raise (KeyError 2).
Proof.
  destruct (plain_rows_are_indexed [plain_row] [cell_D; cell_A])
    as (c & c' & Hrun & Hset & Hget).
  - repeat constructor.
  - repeat constructor.
  - exists c, c'. split; [done|]. split; [done|].
    split; [exact (Hget 1%nat)|exact (Hget 2%nat)].
Defined.

(** X2: a cell with [colspan] w is returned by [get_td] for w consecutive
    columns of its own row, the first of them being the first free column
    at or after the cursor the cells before it left. *)
Theorem colspan_cell_fills_consecutive_columns (c0 ca c1 : cache)
    (pre post : list node) (cell : node) (r w : Z) (cola : nat) :
  Dom.int_attr cell "rowspan" = Ok r →
  Dom.int_attr cell "colspan" = Ok w →
  insert_tds pre (expire c0) 0 = Ok (ca, cola) →
  set_tds c0 (pre ++ cell :: post) = Ok c1 →
  (cola ≤ skip ca cola)%nat ∧
  ca !! skip ca cola = None ∧
  ∀ k, (skip ca cola ≤ k < skip ca cola + Z.to_nat w)%nat →
       get_td c1 k = Ok cell.
Proof.
  intros Er Ew Hpre Hset. split; [apply skip_ge|]. split; [apply skip_free|].
  intros k Hk. unfold get_td.
  by rewrite (set_tds_own_row _ _ _ _ _ _ _ _ _ _ Er Ew Hpre Hk Hset).
Qed.

Lemma colspan_cell_fills_consecutive_columns_witness :
  ∃ c1, set_tds init [cell_A; cell_C; cell_D] = Ok c1 ∧
    get_td c1 1 = Ok cell_C ∧ get_td c1 2 = Ok cell_C.
Proof.
  exists (<[0%nat := (1, cell_A)]> (<[1%nat := (1, cell_C)]>
            (<[2%nat := (1, cell_C)]> (<[3%nat := (1, cell_D)]> ∅)))).
  split; [vm_compute; reflexivity|].
  destruct (colspan_cell_fills_consecutive_columns init
              (<[0%nat := (1, cell_A)]> ∅)
              (<[0%nat := (1, cell_A)]> (<[1%nat := (1, cell_C)]>
                 (<[2%nat := (1, cell_C)]> (<[3%nat := (1, cell_D)]> ∅))))
              [cell_A] [cell_D] cell_C 1 2 1
              eq_refl eq_refl) as (_ & _ & H).
  - vm_compute; reflexivity.
  - vm_compute; reflexivity.
  - split; apply H; vm_compute; lia.
Defined.

Lemma py_int_raises (s : string) (e : exn) :
  Py.int s = Raise e → e = ValueError.
Proof.
  unfold Py.int.
  match goal with
  | |- context [let '(_, _) := ?p in _] => destruct p as [neg digits]
  end.
  destruct (Py.parse_digits false 0 digits); [|by intros [= <-]].
  destruct (Py.max_str_digits <? Py.count_digits digits)%nat; [|done].
  by intros [= <-].
Qed.

Lemma int_attr_raises (cell : node) (key : string) (e : exn) :
  Dom.int_attr cell key = Raise e → e = ValueError.
Proof.
  unfold Dom.int_attr. destruct (Dom.get cell key); [|done].
  apply py_int_raises.
Qed.

Lemma place_td_cases (cell : node) (c : cache) (col : nat) :
  (spans_parse cell ∧ ∃ r, place_td cell c col = Ok r) ∨
  (¬ spans_parse cell ∧ place_td cell c col = Raise ValueError).
Proof.
  unfold place_td, spans_parse.
  destruct (Dom.int_attr cell "rowspan") as [r|e] eqn:Er.
  - destruct (Dom.int_attr cell "colspan") as [w|e] eqn:Ew.
    + left. split; [by eauto|]. by eexists.
    + right. apply int_attr_raises in Ew as ->.
      split; [by intros [_ [? ?]]|done].
  - right. apply int_attr_raises in Er as ->.
    split; [by intros [[? ?] _]|done].
Qed.

Lemma insert_tds_cases (tds : list node) (c : cache) (col : nat) :
  (Forall spans_parse tds ∧ ∃ r, insert_tds tds c col = Ok r) ∨
  (¬ Forall spans_parse tds ∧ insert_tds tds c col = Raise ValueError).
Proof.
  revert c col. induction tds as [|cell tds IH]; intros c col.
  - left. split; [constructor|]. by eexists.
  - cbn [insert_tds].
    destruct (place_td_cases cell c col) as [[Hp [[c1 col1] ->]]|[Hp ->]].
    + cbn [mbind res_bind].
      destruct (IH c1 col1) as [[Hall [r ->]]|[Hall ->]].
      * left. split; [by constructor|]. by eexists.
      * right. split; [|done]. intros H. apply Hall.
        by inversion_clear H.
    + right. split; [|done]. intros H. apply Hp. by inversion_clear H.
Qed.

(** X5: [set_tds] succeeds exactly when the [rowspan] and [colspan]
    attributes of all cells of the row, where present, are strings that
    [int] accepts; the only exception it raises is the [ValueError] of
    [int]. *)
Theorem set_tds_fails_only_on_bad_span (c : cache) (tds : list node) :
  (Forall spans_parse tds ↔ ∃ c', set_tds c tds = Ok c') ∧
  (¬ Forall spans_parse tds ↔ set_tds c tds = Raise ValueError) ∧
  (∀ e, set_tds c tds = Raise e → e = ValueError).
Proof.
  unfold set_tds.
  destruct (insert_tds_cases tds (expire c) 0) as [[H [[c' col'] ->]]|[H ->]].
  - split; [split; [by eexists|done]|]. split; [|done].
    split; [done|discriminate].
  - split; [split; [done|by intros [? ?]]|]. split; [done|].
    by intros e [= <-].
Qed.

Lemma set_tds_fails_only_on_bad_span_witness :
  (∃ c', set_tds init [cell_A; cell_B] = Ok c') ∧
  set_tds init [cell_A; td [("rowspan", "two")] "B"] = Raise ValueError ∧
  set_tds init [td [("colspan", String (ascii_of_nat 28) "2")] "B"]
  = Raise ValueError.
Proof.
  split; [|split].
  - apply (set_tds_fails_only_on_bad_span init [cell_A; cell_B]).
    repeat constructor; eexists; reflexivity.
  - apply (set_tds_fails_only_on_bad_span init
             [cell_A; td [("rowspan", "two")] "B"]).
    intros H. inversion_clear H as [|? ? _ H']. inversion_clear H' as [|? ? H _].
    destruct H as [[r Hr] _]. discriminate Hr.
  - apply (set_tds_fails_only_on_bad_span init
             [td [("colspan", String (ascii_of_nat 28) "2")] "B"]).
    intros H. inversion_clear H as [|? ? H' _].
    destruct H' as [_ [w Hw]]. discriminate Hw.
Defined.

(** What [int] accepts: blanks around the literal, but not the
    separators with the code points 28 to 31; a sign; underscores between
    digits; at most [Py.max_str_digits] digits, the sign not counted. *)
Lemma int_on_samples :
  Py.int " 2 " = Ok 2 ∧
  Py.int (String (ascii_of_nat 160) "+1_0") = Ok 10 ∧
  Py.int (String (ascii_of_nat 28) "2") = Raise ValueError ∧
  Py.int "2 0" = Raise ValueError ∧
  Py.int "" = Raise ValueError ∧
  (∃ n, Py.int ("-" +:+ digits_of 4300) = Ok n) ∧
  Py.int (digits_of 4301) = Raise ValueError.
Proof.
  repeat split; try (vm_compute; reflexivity).
  eexists. vm_compute. reflexivity.
Qed.

Lemma iter_expire_nonpositive (n : nat) (c : cache) (k : nat) (r : Z)
    (cell : node) :
  r ≤ 0 → c !! k = Some (r, cell) →
  Nat.iter n expire c !! k = Some (r - Z.of_nat n, cell).
Proof.
  intros Hr Hk. induction n as [|n IH].
  - simpl. rewrite Hk. do 2 f_equal. lia.
  - rewrite Nat.iter_succ, expire_lookup, IH. simpl. unfold expire_entry. simpl.
    destruct (Z.eqb_spec (r - Z.of_nat n) 1); [lia|]. do 2 f_equal. lia.
Qed.

(** X6: spans are used as [int] returns them.  A cell whose [colspan] is
    zero or negative is put into no column, the cursor only moves to the
    first free column.  A cell whose [rowspan] is zero or negative (and
    whose [colspan] is positive) enters the cache with that count, and the
    count never meets the eviction test: after any number of further
    [set_tds] passes of the first loop the entry is still there. *)
Theorem nonpositive_spans_are_taken_literally (cell : node) (c : cache)
    (col : nat) (r w : Z) :
  Dom.int_attr cell "rowspan" = Ok r →
  Dom.int_attr cell "colspan" = Ok w →
  (w ≤ 0 → place_td cell c col = Ok (c, skip c col)) ∧
  (r ≤ 0 → 0 < w →
     ∃ c', place_td cell c col = Ok (c', (skip c col + Z.to_nat w)%nat) ∧
       ∀ n, Nat.iter n expire c' !! skip c col
            = Some (r - Z.of_nat n, cell)).
Proof.
  intros Er Ew. unfold place_td. rewrite Er, Ew. cbn [mbind res_bind mret res_ret].
  split.
  - intros Hw. replace (Z.to_nat w) with O by lia. reflexivity.
  - intros Hr Hw.
    destruct (fill_spec (Z.to_nat w) r cell c (skip c col)) as [F1 F2].
    destruct (fill (Z.to_nat w) r cell c (skip c col)) as [c' col'].
    simpl in F1, F2. subst col'. exists c'. split; [done|].
    intros n. apply iter_expire_nonpositive; [done|].
    rewrite F2. rewrite decide_True by lia. done.
Qed.

Lemma nonpositive_spans_are_taken_literally_witness :
  place_td (td [("colspan", "-2")] "G") init 0 = Ok (init, 0%nat) ∧
  ∃ c', place_td (td [("rowspan", "-1")] "H") init 0 = Ok (c', 1%nat) ∧
        Nat.iter 2 expire c' !! 0%nat = Some (-3, td [("rowspan", "-1")] "H").
Proof.
  split.
  - apply (nonpositive_spans_are_taken_literally (td [("colspan", "-2")] "G")
             init 0 1 (-2) eq_refl eq_refl). lia.
  - destruct (nonpositive_spans_are_taken_literally
                (td [("rowspan", "-1")] "H") init 0 (-1) 1 eq_refl eq_refl)
      as [_ H].
    destruct H as (c' & Hp & Hn); [lia|lia|].
    exists c'. split; [exact Hp|exact (Hn 2%nat)].
Defined.

Lemma insert_tds_positive (tds : list node) (c c' : cache) (col col' : nat) :
  (∀ k e, c !! k = Some e → 1 ≤ e.1) →
  Forall (λ cell, ∃ r, Dom.int_attr cell "rowspan" = Ok r ∧ 1 ≤ r) tds →
  insert_tds tds c col = Ok (c', col') →
  ∀ k e, c' !! k = Some e → 1 ≤ e.1.
Proof.
  revert c col. induction tds as [|cell tds IH]; intros c col Hall Hp; simpl.
  - by intros [= <- <-].
  - inversion_clear Hp as [|? ? (r & Er & Hr) Htds].
    destruct (place_td cell c col) as [[c1 col1]|] eqn:Ep; [|done].
    cbn [mbind res_bind]. apply IH; [|done].
    destruct (place_td_spec _ _ _ _ _ Ep) as (r' & w & Er' & _ & _ & Hc1).
    rewrite Er in Er'. injection Er' as <-.
    intros k e. rewrite Hc1. case_decide; [by intros [= <-]|apply Hall].
Qed.

(** X7: the counts stay at least 1.  When every entry of the cache has a
    count of at least 1 and every cell of the row has a [rowspan] of at
    least 1 (missing counts as 1), the same holds of the cache after
    [set_tds]. *)
Theorem positive_counts_are_kept (c c' : cache) (tds : list node) :
  (∀ k e, c !! k = Some e → 1 ≤ e.1) →
  Forall (λ cell, ∃ r, Dom.int_attr cell "rowspan" = Ok r ∧ 1 ≤ r) tds →
  set_tds c tds = Ok c' →
  ∀ k e, c' !! k = Some e → 1 ≤ e.1.
Proof.
  intros Hall Hp. unfold set_tds.
  destruct (insert_tds tds (expire c) 0) as [[c2 col2]|] eqn:Ei; [|done].
  simpl. intros [= <-].
  refine (insert_tds_positive _ _ _ _ _ _ Hp Ei).
  intros k e. rewrite expire_lookup.
  destruct (c !! k) as [[n v]|] eqn:E; [|done].
  simpl. unfold expire_entry. simpl.
  destruct (Z.eqb_spec n 1); [done|].
  intros [= <-]. simpl. specialize (Hall k _ E). simpl in Hall. lia.
Qed.

Lemma positive_counts_are_kept_witness :
  set_tds init [cell_A; cell_B]
  = Ok (<[0%nat := (1, cell_A)]> (<[1%nat := (2, cell_B)]> ∅)) ∧
  1 ≤ (2, cell_B).1.
Proof.
  split; [vm_compute; reflexivity|].
  apply (positive_counts_are_kept init
           (<[0%nat := (1, cell_A)]> (<[1%nat := (2, cell_B)]> ∅))
           [cell_A; cell_B]) with (k := 1%nat).
  - intros k e H. unfold init in H. by rewrite lookup_empty in H.
  - constructor; [exists 1; split; [reflexivity|lia]|].
    constructor; [exists 2; split; [reflexivity|lia]|]. constructor.
  - vm_compute; reflexivity.
  - vm_compute; reflexivity.
Defined.

End row_helper_more.

(** ** Further properties of the extractors *)

Section dictionaries.
Context {V : Type}.

Lemma dict_get_set_eq (k : string) (v : V) (d : list (string * V)) :
  Dict.get k (Dict.set k v d) = Some v.
Proof.
  induction d as [|[k' v'] d IH]; simpl.
  - by rewrite String.eqb_refl.
  - destruct (String.eqb k' k) eqn:E; simpl; by rewrite E.
Qed.

Lemma dict_get_set_ne (k k0 : string) (v : V) (d : list (string * V)) :
  k ≠ k0 → Dict.get k0 (Dict.set k v d) = Dict.get k0 d.
Proof.
  intros Hne. induction d as [|[k' v'] d IH]; simpl.
  - by rewrite (string_eqb_neq _ _ Hne).
  - destruct (String.eqb_spec k' k) as [->|Hk]; simpl.
    + by rewrite (string_eqb_neq _ _ Hne).
    + destruct (String.eqb k' k0); [done|apply IH].
Qed.

Lemma dict_set_keys (k : string) (v : V) (d : list (string * V)) :
  (Dict.set k v d).*1
  = if Dict.contains k d then d.*1 else d.*1 ++ [k].
Proof.
  unfold Dict.contains. induction d as [|[k' v'] d IH]; simpl; [done|].
  destruct (String.eqb k' k) eqn:E; simpl; [done|].
  change (list_fmap (string * V)%type string fst (Dict.set k v d))
    with ((Dict.set k v d).*1).
  rewrite IH. by destruct (Dict.get k d).
Qed.

Lemma dict_contains_keys (k : string) (d : list (string * V)) :
  Dict.contains k d = true ↔ k ∈ d.*1.
Proof.
  unfold Dict.contains. induction d as [|[k' v'] d IH]; simpl.
  - split; [done|]. intros H. by apply elem_of_nil in H.
  - rewrite elem_of_cons. destruct (String.eqb_spec k' k) as [->|Hk].
    + split; [by left|done].
    + rewrite IH. split; [by right|]. by intros [?|?].
Qed.

Lemma dict_get_elem (k : string) (v : V) (d : list (string * V)) :
  Dict.get k d = Some v → (k, v) ∈ d.
Proof.
  induction d as [|[k' v'] d IH]; simpl; [done|].
  destruct (String.eqb_spec k' k) as [->|Hk].
  - intros [= ->]. apply list_elem_of_here.
  - intros H. apply list_elem_of_further. by apply IH.
Qed.

End dictionaries.

Section speed_table_more.

(** *** Header rows *)

Lemma init_loop_spec (ths : list node) (ks : list Z) (acc : list string) :
  Forall2 (λ cell k, Dom.int_attr cell "colspan" = Ok k) ths ks →
  for_each (λ names cell,
      let th_text := Dom.get_text "" cell in
      n ← Dom.int_attr cell "colspan";
      mret (names ++ replicate (Z.to_nat n) th_text))
    acc ths
  = Ok (acc ++ concat (zip_with
                 (λ cell k, replicate (Z.to_nat k) (Dom.get_text "" cell))
                 ths ks)).
Proof.
  intros H. revert acc. induction H as [|cell k ths ks Hk _ IH]; intros acc.
  - simpl. by rewrite app_nil_r.
  - cbn [for_each]. rewrite Hk. cbn [mbind res_bind mret res_ret].
    rewrite IH. simpl. by rewrite app_assoc.
Qed.

(** X8: the first header row gives one column name per column spanned:
    the text of each [th] is repeated [colspan] times, in the order of the
    tags. *)
Theorem first_header_row_expands_colspans (ths : list node) (ks : list Z) :
  Forall2 (λ cell k, Dom.int_attr cell "colspan" = Ok k) ths ks →
  header_names [] ths
  = Ok (concat (zip_with
                  (λ cell k, replicate (Z.to_nat k) (Dom.get_text "" cell))
                  ths ks)).
Proof.
  intros H. destruct H as [|cell k ths ks Hk H]; [done|].
  change (header_names [] (cell :: ths)) with (init_names (cell :: ths)).
  apply (init_loop_spec (cell :: ths) (k :: ks) []). by constructor.
Qed.

Lemma first_header_row_expands_colspans_witness :
  header_names [] [th [] "Country"; th [("colspan", "2")] "Speed"]
  = Ok ["Country"; "Speed"; "Speed"].
Proof.
  apply (first_header_row_expands_colspans
           [th [] "Country"; th [("colspan", "2")] "Speed"] [1; 2]).
  repeat constructor.
Defined.

Lemma revise_blank (names : list string) (l : list (nat * node)) :
  Forall (λ p, Dom.get_text "" p.2 = "") l →
  for_each revise_th names l = Ok names.
Proof.
  induction 1 as [|[i cell] l Hc _ IH]; [done|].
  simpl in Hc.
  assert (revise_th names (i, cell) = Ok names) as Hth.
  { unfold revise_th. cbn beta iota zeta. by rewrite Hc. }
  cbn [for_each]. rewrite Hth. apply IH.
Qed.

Lemma Forall_enumerate_from {A} (P : A → Prop) (f : nat → nat) (l : list A) :
  Forall P l → Forall (λ p, P p.2) (imap (λ i x, (f i, x)) l).
Proof.
  intros H. revert f. induction H as [|x l Hx _ IH]; intros f; [constructor|].
  rewrite imap_cons. constructor; [done|]. apply (IH (f ∘ S)).
Qed.

(** X9: a later header row all of whose [th] tags are without text leaves
    the column names as they are; the [colspan] attributes of such tags are
    not even read, so a malformed one does no harm. *)
Theorem blank_header_row_changes_nothing (names : list string)
    (ths : list node) :
  names ≠ [] →
  Forall (λ cell, Dom.get_text "" cell = "") ths →
  header_names names ths = Ok names.
Proof.
  intros Hne Hblank. unfold header_names.
  destruct ths as [|cell ths]; [done|].
  destruct names as [|n0 names]; [done|].
  unfold revise_names, enumerate. apply revise_blank.
  apply (Forall_enumerate_from _ id _ Hblank).
Qed.

Lemma blank_header_row_changes_nothing_witness :
  header_names ["A"; "B"] [th [("colspan", "many")] " "; th [] ""]
  = Ok ["A"; "B"].
Proof.
  apply blank_header_row_changes_nothing; [discriminate|].
  repeat constructor.
Defined.

(** X10: once column names are set, a header row never changes how many
    there are: a revision either keeps the length of [column_names] or
    raises. *)
Theorem header_revision_keeps_length (names names' : list string)
    (ths : list node) :
  names ≠ [] →
  header_names names ths = Ok names' →
  length names' = length names.
Proof.
  intros Hne. unfold header_names.
  destruct ths as [|cell ths]; [by intros [= ->]|].
  destruct names as [|n0 names]; [done|].
  apply revise_loop_length.
Qed.

Lemma header_revision_keeps_length_witness :
  length ["X"; "X"; "C"] = length ["A"; "B"; "C"].
Proof.
  apply (header_revision_keeps_length ["A"; "B"; "C"] ["X"; "X"; "C"]
           [th [("colspan", "2")] "X"]); [discriminate|reflexivity].
Defined.

(** *** Tags and entries *)

(** X11: merging is last-write-wins.  After the parsed pairs of a cell
    are merged into [road_tags], a key holds the value of the last pair
    whose rewritten key it is, and keeps the value it had when no pair is
    rewritten to it. *)
Theorem merge_is_last_write_wins (vehicle_type key : string)
    (parsed_speeds road_tags : list (string * string)) :
  Dict.get key (merge_speeds vehicle_type parsed_speeds road_tags)
  = match last (filter (λ kv, rewrite_key vehicle_type kv.1 = key)
                       parsed_speeds) with
    | Some kv => Some kv.2
    | None => Dict.get key road_tags
    end.
Proof.
  unfold merge_speeds.
  induction parsed_speeds as [|kv l IH] using rev_ind; [done|].
  rewrite foldl_app, filter_app. cbn [foldl].
  destruct (decide (rewrite_key vehicle_type kv.1 = key)) as [<-|Hne].
  - rewrite dict_get_set_eq.
    rewrite filter_cons, decide_True by done.
    by rewrite filter_nil, last_snoc.
  - rewrite dict_get_set_ne by done.
    rewrite filter_cons, decide_False by done.
    by rewrite filter_nil, app_nil_r.
Qed.

Lemma append_entry_lookup (country_code k : string) (rc : road_class)
    (result : list (string * list road_class)) :
  Dict.get k (append_entry country_code rc result)
  = if decide (k = country_code)
    then Some (default [] (Dict.get country_code result) ++ [rc])
    else Dict.get k result.
Proof.
  unfold append_entry, Dict.contains.
  destruct (Dict.get country_code result) as [l|] eqn:E.
  - rewrite E. case_decide as Hk.
    + subst k. by rewrite dict_get_set_eq.
    + by rewrite dict_get_set_ne.
  - rewrite dict_get_set_eq. case_decide as Hk.
    + subst k. by rewrite dict_get_set_eq.
    + by rewrite !dict_get_set_ne.
Qed.

Lemma append_entry_keys (country_code : string) (rc : road_class)
    (result : list (string * list road_class)) :
  (append_entry country_code rc result).*1
  = if Dict.contains country_code result then result.*1
    else result.*1 ++ [country_code].
Proof.
  unfold append_entry.
  destruct (Dict.contains country_code result) eqn:E.
  - unfold Dict.contains in E.
    destruct (Dict.get country_code result) as [l|] eqn:E'; [|done].
    rewrite dict_set_keys. unfold Dict.contains. by rewrite E'.
  - rewrite dict_get_set_eq, !dict_set_keys, E.
    unfold Dict.contains. by rewrite dict_get_set_eq.
Qed.

(** X12: [append_entry] puts the entry at the end of the list of its
    jurisdiction, starting a list when the code is new; the lists of all
    other codes are untouched, and a new code goes behind the codes already
    there. *)
Theorem append_entry_appends (country_code : string) (rc : road_class)
    (result : list (string * list road_class)) :
  Dict.get country_code (append_entry country_code rc result)
  = Some (default [] (Dict.get country_code result) ++ [rc]) ∧
  (∀ other, other ≠ country_code →
     Dict.get other (append_entry country_code rc result)
     = Dict.get other result) ∧
  (append_entry country_code rc result).*1
  = if Dict.contains country_code result then result.*1
    else result.*1 ++ [country_code].
Proof.
  split; [|split].
  - rewrite append_entry_lookup. by rewrite decide_True.
  - intros other Hne. rewrite append_entry_lookup. by rewrite decide_False.
  - apply append_entry_keys.
Qed.

Lemma append_entry_appends_witness :
  Dict.get "DE" (append_entry "NL" (RoadClass [] None) sample_speeds)
  = Dict.get "DE" sample_speeds.
Proof.
  apply (append_entry_appends "NL" (RoadClass [] None) sample_speeds).
  discriminate.
Defined.

(** *** Rows and tables *)

(** X13: a row of the speed table that is processed without an exception
    leaves at most one trace: nothing (a row without [td] tags), or one
    "Unknown country / subdivision" warning for a name that did not resolve
    and no entry, or one entry appended under a non-empty code and no
    warning.  An entry never carries an empty name. *)
Theorem row_leaves_one_entry_or_one_warning (db : pycountry)
    (speed_parse_func : string → option (list (string * string)))
    (st st' : speed_state) (row : node) :
  speed_row db speed_parse_func st row = Ok st' →
  (Dom.find_all_named "td" row = [] ∧
   result st' = result st ∧ warnings st' = warnings st) ∨
  (∃ country,
     (get_country_code db country = None
      ∨ get_country_code db country = Some "") ∧
     result st' = result st ∧
     warnings st' = warnings st ++ [unknown_warning country]) ∨
  (∃ country_code rc,
     country_code ≠ "" ∧ rc_name rc ≠ Some "" ∧
     result st' = append_entry country_code rc (result st) ∧
     warnings st' = warnings st).
Proof.
  unfold speed_row.
  destruct (header_names (column_names st) (Dom.find_all_named "th" row))
    as [names|]; [|done].
  cbn [mbind res_bind].
  destruct (TableRowHelper.set_tds (td_cache st) (Dom.find_all_named "td" row))
    as [cache|]; [|done].
  cbn [mbind res_bind].
  destruct (Dom.find_all_named "td" row) as [|x l].
  { intros [= <-]. by left. }
  destruct (TableRowHelper.get_td cache 0) as [td0|]; [|done].
  cbn [mbind res_bind].
  destruct (get_country_code db (Dom.get_text "" td0)) as [[|c0 cc]|] eqn:Ec.
  - intros [= <-]. right. left. exists (Dom.get_text "" td0). by eauto.
  - destruct (TableRowHelper.get_td cache 1) as [td1|]; [|done].
    cbn [mbind res_bind].
    destruct (for_each (speed_cell speed_parse_func cache names) []
                (seq 2 (length names - 2))) as [road_tags|]; [|done].
    cbn [mbind res_bind]. intros [= <-]. right. right.
    eexists _, _. split; [|split; [|split; reflexivity]]; [done|].
    simpl. by destruct (Dom.get_text "" td1).
  - intros [= <-]. right. left. exists (Dom.get_text "" td0). by eauto.
Qed.

Lemma row_leaves_one_entry_or_one_warning_witness :
  (Dom.find_all_named "td" header_row = [] ∧
   @nil (string * list road_class) = [] ∧ @nil string = []) ∨
  (∃ country,
     (get_country_code sample_db country = None
      ∨ get_country_code sample_db country = Some "") ∧
     @nil (string * list road_class) = [] ∧
     @nil string = [] ++ [unknown_warning country]) ∨
  (∃ country_code rc,
     country_code ≠ "" ∧ rc_name rc ≠ Some "" ∧
     [] = append_entry country_code rc [] ∧ @nil string = []).
Proof.
  apply (row_leaves_one_entry_or_one_warning sample_db picky_parser
           (SpeedState [] [] [] TableRowHelper.init)
           (SpeedState ["Country"; "Road type"; "(default)"; "hgv"] [] []
              TableRowHelper.init)
           header_row).
  vm_compute. reflexivity.
Defined.

Lemma for_each_invariant {S A} (P : S → Prop) (body : S → A → res S)
    (l : list A) (st st' : S) :
  (∀ s a s', P s → body s a = Ok s' → P s') →
  P st → for_each body st l = Ok st' → P st'.
Proof.
  intros Hstep. revert st. induction l as [|a l IH]; intros st HP; simpl.
  - by intros [= <-].
  - destruct (body st a) as [s1|] eqn:E; [|done]. cbn [mbind res_bind].
    apply IH. by eapply Hstep.
Qed.

Lemma append_entry_invariant (country_code : string) (rc : road_class)
    (result : list (string * list road_class)) :
  country_code ≠ "" → rc_name rc ≠ Some "" →
  speeds_invariant result →
  speeds_invariant (append_entry country_code rc result).
Proof.
  intros Hcode Hname [Hnd Hget].
  split.
  - rewrite append_entry_keys. destruct (Dict.contains country_code result) eqn:E; [done|].
    apply NoDup_app. split; [done|]. split; [|apply NoDup_singleton].
    intros k Hk Hk'. apply list_elem_of_singleton in Hk' as ->.
    apply dict_contains_keys in Hk. congruence.
  - intros code entries.
    rewrite append_entry_lookup.
    destruct (decide (code = country_code)) as [->|Hne].
    + intros [= <-]. split; [done|].
      split; [by destruct (default [] (Dict.get country_code result))|].
      apply Forall_app. split; [|by repeat constructor].
      destruct (Dict.get country_code result) as [l|] eqn:E; [|constructor].
      by destruct (Hget _ _ E) as (_ & _ & ?).
    + apply Hget.
Qed.

Lemma speed_row_keeps_invariant (db : pycountry)
    (speed_parse_func : string → option (list (string * string)))
    (st st' : speed_state) (row : node) :
  speeds_invariant (result st) ∧
  Forall (λ w, ∃ country,
            w = unknown_warning country ∧
            (get_country_code db country = None
             ∨ get_country_code db country = Some ""))
         (warnings st) →
  speed_row db speed_parse_func st row = Ok st' →
  speeds_invariant (result st') ∧
  Forall (λ w, ∃ country,
            w = unknown_warning country ∧
            (get_country_code db country = None
             ∨ get_country_code db country = Some ""))
         (warnings st').
Proof.
  intros [Hinv Hw]. unfold speed_row.
  destruct (header_names (column_names st) (Dom.find_all_named "th" row))
    as [names|]; [|done].
  cbn [mbind res_bind].
  destruct (TableRowHelper.set_tds (td_cache st) (Dom.find_all_named "td" row))
    as [cache|]; [|done].
  cbn [mbind res_bind].
  destruct (Dom.find_all_named "td" row) as [|x l]; [by intros [= <-]|].
  destruct (TableRowHelper.get_td cache 0) as [td0|]; [|done].
  cbn [mbind res_bind].
  assert (Hwarn :
            get_country_code db (Dom.get_text "" td0) = None
            ∨ get_country_code db (Dom.get_text "" td0) = Some "" →
            speeds_invariant (result st) ∧
            Forall (λ w, ∃ country,
                      w = unknown_warning country ∧
                      (get_country_code db country = None
                       ∨ get_country_code db country = Some ""))
                   (warnings st ++ [unknown_warning (Dom.get_text "" td0)])).
  { intros Hc. split; [done|]. apply Forall_app. split; [done|].
    constructor; [by eexists|constructor]. }
  destruct (get_country_code db (Dom.get_text "" td0)) as [[|c0 cc]|] eqn:Ec.
  - intros [= <-]. apply Hwarn. by right.
  - destruct (TableRowHelper.get_td cache 1) as [td1|]; [|done].
    cbn [mbind res_bind].
    destruct (for_each (speed_cell speed_parse_func cache names) []
                (seq 2 (length names - 2))) as [road_tags|]; [|done].
    cbn [mbind res_bind]. intros [= <-]. cbn [result warnings].
    split; [|done]. apply append_entry_invariant; [done| |done].
    simpl. by destruct (Dom.get_text "" td1).
  - intros [= <-]. apply Hwarn. by left.
Qed.

(** X14: what [parse_speed_table] returns, when it returns: the codes of
    the mapping are pairwise distinct and none is empty, every code has at
    least one entry, no entry has an empty name, and every warning is an
    "Unknown country / subdivision" warning for a name that did not
    resolve. *)
Theorem speed_table_output_is_well_formed (db : pycountry)
    (speed_parse_func : string → option (list (string * string)))
    (table : node) (t : speed_table) :
  (parse_speed_table db speed_parse_func table).1 = Ok t →
  speeds_invariant (speedLimitsByCountryCode t) ∧
  Forall (λ w, ∃ country,
            w = unknown_warning country ∧
            (get_country_code db country = None
             ∨ get_country_code db country = Some ""))
         (table_warnings t).
Proof.
  unfold parse_speed_table. cbn [fst].
  destruct (for_each (speed_row db speed_parse_func)
              (SpeedState [] [] [] TableRowHelper.init)
              (Dom.find_all_named "tr"
                 (Dom.decompose_all is_uninteresting table)))
    as [st|] eqn:E; [|done].
  cbn [fmap res_fmap]. intros [= <-]. cbn [speedLimitsByCountryCode table_warnings].
  refine (for_each_invariant
            (λ s, speeds_invariant (result s) ∧
                  Forall (λ w, ∃ country,
                            w = unknown_warning country ∧
                            (get_country_code db country = None
                             ∨ get_country_code db country = Some ""))
                         (warnings s))
            _ _ _ _ _ _ E).
  - intros s row s' Hs Hrow. by eapply speed_row_keeps_invariant.
  - split; [|constructor]. split; [constructor|]. by intros code entries.
Qed.

Lemma speed_table_output_is_well_formed_witness :
  speeds_invariant
    [("NL-BQ1",
      [RoadClass [("maxspeed", "100"); ("maxspeed:hgv", "80")]
         (Some "motorway")])].
Proof.
  apply (speed_table_output_is_well_formed sample_db
           (λ s, Some [("maxspeed", s)]) bonaire_table
           (SpeedTable
              [("NL-BQ1",
                [RoadClass [("maxspeed", "100"); ("maxspeed:hgv", "80")]
                   (Some "motorway")])] [])).
  vm_compute. reflexivity.
Defined.

End speed_table_more.

Section road_types_more.

(** X16: the road-type table needs four columns.  In a table without
    spans, a row with one to three cells makes [parse_road_types_table]'s
    row loop raise [KeyError] for the first column that is missing. *)
Theorem short_road_type_row_raises (rows : list (list node)) (row : node)
    (result : road_types) :
  Forall (Forall plain) rows →
  Forall plain (Dom.find_all_named "td" row) →
  (0 < length (Dom.find_all_named "td" row) < 4)%nat →
  ∃ c, run TableRowHelper.init rows = Ok c ∧
       road_types_row (result, c) row
       = Raise (KeyError (length (Dom.find_all_named "td" row))).
Proof.
  intros Hrows Htds Hlen.
  destruct (run_plain rows TableRowHelper.init) as (c & Hrun & Hc);
    [done|done|].
  destruct (set_tds_plain c _ Hc Htds) as (c' & Hset & Hc').
  assert (Hget : ∀ i, TableRowHelper.get_td c' i
                      = match Dom.find_all_named "td" row !! i with
                        | Some cell => Ok cell
                        | None => Raise (KeyError i)
                        end).
  { intros i. unfold TableRowHelper.get_td. rewrite Hc'.
    by destruct (Dom.find_all_named "td" row !! i). }
  clear Hc'.
  exists c. split; [done|]. unfold road_types_row. rewrite Hset.
  cbn [mbind res_bind].
  destruct (Dom.find_all_named "td" row) as [|a [|b [|d [|e l]]]];
    simpl in Hlen; try lia.
  - rewrite (Hget 0%nat). cbn [mbind res_bind]. by rewrite (Hget 1%nat).
  - rewrite (Hget 0%nat). cbn [mbind res_bind]. rewrite (Hget 1%nat).
    cbn [mbind res_bind]. by rewrite (Hget 2%nat).
  - rewrite (Hget 0%nat). cbn [mbind res_bind]. rewrite (Hget 1%nat).
    cbn [mbind res_bind]. rewrite (Hget 2%nat). cbn [mbind res_bind].
    by rewrite (Hget 3%nat).
Qed.

Lemma short_road_type_row_raises_witness :
  ∃ c, run TableRowHelper.init [] = Ok c ∧
       road_types_row ([], c) short_row = Raise (KeyError 3).
Proof.
  apply (short_road_type_row_raises [] short_row []).
  - constructor.
  - repeat constructor.
  - vm_compute. lia.
Defined.

Lemma dict_set_nodup {V} (k : string) (v : V) (d : list (string * V)) :
  NoDup d.*1 → NoDup (Dict.set k v d).*1.
Proof.
  intros Hnd. rewrite dict_set_keys.
  destruct (Dict.contains k d) eqn:E; [done|].
  apply NoDup_app. split; [done|]. split; [|apply NoDup_singleton].
  intros k' Hk Hk'. apply list_elem_of_singleton in Hk' as ->.
  apply dict_contains_keys in Hk. congruence.
Qed.

Lemma road_class_well_formed (tags_filter fuzzy_tags_filter
    relation_tags_filter : string) :
  filters_well_formed
    (let road_class : filters := [] in
     let road_class :=
       if truthy tags_filter
       then Dict.set "filter" tags_filter road_class else road_class in
     let road_class :=
       if truthy fuzzy_tags_filter
       then Dict.set "fuzzyFilter" fuzzy_tags_filter road_class
       else road_class in
     if truthy relation_tags_filter
     then Dict.set "relationFilter" relation_tags_filter road_class
     else road_class).
Proof.
  destruct tags_filter, fuzzy_tags_filter, relation_tags_filter;
    (split;
     [ simpl;
       repeat first [ apply sublist_nil | apply sublist_skip
                    | apply sublist_cons ]
     | repeat constructor; discriminate ]).
Qed.

Lemma road_types_row_invariant (st st' : road_types * TableRowHelper.cache)
    (row : node) :
  (NoDup st.1.*1 ∧
   ∀ name fs, Dict.get name st.1 = Some fs → filters_well_formed fs) →
  road_types_row st row = Ok st' →
  NoDup st'.1.*1 ∧
  ∀ name fs, Dict.get name st'.1 = Some fs → filters_well_formed fs.
Proof.
  destruct st as [result cache]. intros [Hnd Hwf]. unfold road_types_row.
  destruct (TableRowHelper.set_tds cache (Dom.find_all_named "td" row))
    as [cache'|]; [|done].
  cbn [mbind res_bind].
  destruct (Dom.find_all_named "td" row) as [|x l]; [by intros [= <-]|].
  destruct (TableRowHelper.get_td cache' 0) as [td0|]; [|done].
  cbn [mbind res_bind].
  destruct (TableRowHelper.get_td cache' 1) as [td1|]; [|done].
  cbn [mbind res_bind].
  destruct (TableRowHelper.get_td cache' 2) as [td2|]; [|done].
  cbn [mbind res_bind].
  destruct (TableRowHelper.get_td cache' 3) as [td3|]; [|done].
  cbn [mbind res_bind mret res_ret]. intros [= <-]. cbn [fst].
  split; [by apply dict_set_nodup|].
  intros name fs.
  destruct (decide (Dom.get_text "" td0 = name)) as [<-|Hne].
  - rewrite dict_get_set_eq. intros [= <-]. apply road_class_well_formed.
  - rewrite dict_get_set_ne by done. apply Hwf.
Qed.

(** X17: what [parse_road_types_table] returns, when it returns: the road
    type names of the mapping are pairwise distinct, and every filter set
    has its keys among [filter], [fuzzyFilter] and [relationFilter], each
    at most once and in this order, with no empty value. *)
Theorem road_types_output_is_well_formed (table : node) (result : road_types) :
  (parse_road_types_table table).1 = Ok result →
  NoDup result.*1 ∧
  ∀ name fs, Dict.get name result = Some fs → filters_well_formed fs.
Proof.
  unfold parse_road_types_table. cbn [fst].
  destruct (for_each road_types_row ([], TableRowHelper.init)
              (Dom.find_all_named "tr"
                 (Dom.decompose_all is_uninteresting table)))
    as [[result' cache]|] eqn:E; [|done].
  cbn [fmap res_fmap fst]. intros [= <-].
  refine (for_each_invariant
            (λ st, NoDup st.1.*1 ∧
                   ∀ name fs, Dict.get name st.1 = Some fs →
                              filters_well_formed fs)
            _ _ _ (result', cache) _ _ E).
  - intros s row s' Hs Hrow. by eapply road_types_row_invariant.
  - split; [constructor|]. by intros name fs.
Qed.

Lemma road_types_output_is_well_formed_witness :
  NoDup [("motorway", [("filter", "highway=motorway")])].*1.
Proof.
  apply (road_types_output_is_well_formed footnote_table
           [("motorway", [("filter", "highway=motorway")])]).
  vm_compute. reflexivity.
Defined.

(** A later row with the same road type name replaces the filter set of
    the earlier one and keeps its place. *)
Example repeated_road_type_is_replaced :
  (parse_road_types_table
     (Tag "table" []
        [tr [td [] "a"; td [] "x"; td [] ""; td [] ""];
         tr [td [] "b"; td [] ""; td [] ""; td [] ""];
         tr [td [] "a"; td [] ""; td [] "y"; td [] ""]])).1
  = Ok [("a", [("fuzzyFilter", "y")]); ("b", [])].
Proof. vm_compute. reflexivity. Qed.

End road_types_more.

(** ** Further properties of the decoration stripper *)

Section stripper_more.

Lemma decompose_all_idempotent (n : node) :
  Dom.decompose_all is_uninteresting (Dom.decompose_all is_uninteresting n)
  = Dom.decompose_all is_uninteresting n.
Proof. apply decompose_all_noop, decompose_all_clean. Qed.

(** X18: after a first run of either extractor the caller's table is
    settled: a second run on it returns what the first returned and leaves
    the table as the first left it. *)
Theorem second_run_repeats_the_first (db : pycountry)
    (speed_parse_func : string → option (list (string * string)))
    (table : node) :
  parse_road_types_table (parse_road_types_table table).2
  = parse_road_types_table table ∧
  parse_speed_table db speed_parse_func
    (parse_speed_table db speed_parse_func table).2
  = parse_speed_table db speed_parse_func table ∧
  parse_speed_table db speed_parse_func (parse_road_types_table table).2
  = ((parse_speed_table db speed_parse_func table).1,
     (parse_road_types_table table).2).
Proof.
  unfold parse_road_types_table, parse_speed_table. cbn [snd fst].
  by rewrite !decompose_all_idempotent.
Qed.

Lemma strings_tag (nm : string) (a : list (string * string)) (cs : list node) :
  Dom.strings (Tag nm a cs) = omap text_of (Dom.descendants_of_list cs).
Proof. unfold Dom.strings. by rewrite descendants_tag. Qed.

Lemma text_of_decompose_all (n : node) :
  text_of (Dom.decompose_all is_uninteresting n) = text_of n.
Proof. by destruct n. Qed.

(** X19: stripping only takes strings away: the strings of the stripped
    table are strings of the table as it was, in the same order. *)
Theorem stripping_only_removes_strings (table : node) :
  Dom.strings (Dom.decompose_all is_uninteresting table)
  `sublist_of` Dom.strings table.
Proof.
  induction table as [s|nm a cs IH] using node_children_ind; [done|].
  rewrite decompose_all_tag, !strings_tag.
  induction cs as [|c cs IHcs]; [done|].
  inversion_clear IH as [|? ? Hc Hcs]. specialize (IHcs Hcs).
  cbn [prune]. fold (junk c).
  unfold Dom.descendants_of_list in *. cbn [flat_map].
  rewrite (omap_app _ (c :: Dom.descendants c)).
  destruct (junk c).
  - by apply sublist_inserts_l.
  - cbn [flat_map].
    rewrite (omap_app _ (Dom.decompose_all is_uninteresting c :: _)).
    apply sublist_app; [|done].
    cbn [omap list_omap]. rewrite text_of_decompose_all.
    destruct (text_of c); [apply sublist_skip|]; apply Hc.
Qed.

End stripper_more.

(** ** Further properties of the jurisdiction code resolver *)

Section resolver_more.

Lemma split_nonempty (sep : ascii) (s : string) :
  (0 < length (Py.split sep s))%nat.
Proof.
  induction s as [|c s IH]; simpl; [lia|].
  destruct (Ascii.eqb c sep); simpl; [lia|].
  destruct (Py.split sep s); simpl; lia.
Qed.

Lemma split_length (name : string) :
  (1 < length (Py.split ":" name))%nat ↔ has_char ":" name = true.
Proof.
  induction name as [|c name IH]; simpl; [split; [lia|done]|].
  pose proof (split_nonempty ":" name) as Hpos.
  destruct (Ascii.eqb c ":"); simpl.
  - split; [done|]. intros _. lia.
  - rewrite <- IH. destruct (Py.split ":" name) as [|p ps]; simpl; lia.
Qed.

(** X20: a code the resolver finds outside the override table comes from
    the reference.  For a name without colon it is the code of the
    country looked up under the trimmed name; for a name with a colon it is
    the code of the first subdivision, among those listed for that
    country, whose name is the trimmed second piece of the name. *)
Theorem resolved_code_comes_from_the_reference (db : pycountry)
    (name code : string) :
  Dict.get name country_codes = None →
  get_country_code db name = Some code →
  ∃ country_code,
    countries_lookup db (Py.strip (before_first_colon name))
    = Some country_code ∧
    (has_char ":" name = false → code = country_code) ∧
    (has_char ":" name = true →
       ∃ subs before sd after,
         subdivisions_get db country_code = Some subs ∧
         subs = before ++ sd :: after ∧
         sub_code sd = code ∧
         sub_name sd = Py.strip (nth 1 (Py.split ":" name) EmptyString) ∧
         Forall (λ s, sub_name s
                      ≠ Py.strip (nth 1 (Py.split ":" name) EmptyString))
                before).
Proof.
  intros Hout. unfold get_country_code. rewrite Hout. cbv zeta.
  rewrite split_first_piece.
  destruct (countries_lookup db (Py.strip (before_first_colon name)))
    as [cc|]; [|done].
  intros H. exists cc. split; [done|].
  destruct (Nat.ltb_spec 1 (length (Py.split ":" name))) as [Hlen|Hlen].
  - apply split_length in Hlen. split; [congruence|]. intros _.
    destruct (subdivisions_get db cc) as [subs|]; [|done].
    exists subs.
    set (text := Py.strip (nth 1 (Py.split ":" name) EmptyString)) in *.
    clearbody text. clear Hlen Hout.
    induction subs as [|s subs IH]; [done|].
    simpl in H. destruct (String.eqb_spec (sub_name s) text) as [Heq|Hne].
    + injection H as <-. exists [], s, subs. by repeat split.
    + destruct (IH H) as (before & sd & after & _ & -> & ? & ? & ?).
      exists (s :: before), sd, after. repeat split; try done.
      by constructor.
  - split; [intros _; congruence|].
    intros Hc. apply split_length in Hc. lia.
Qed.

Lemma resolved_code_comes_from_the_reference_witness :
  ∃ country_code,
    countries_lookup sample_db (Py.strip (before_first_colon "Germany:Berlin"))
    = Some country_code ∧
    ∃ subs before sd after,
      subdivisions_get sample_db country_code = Some subs ∧
      subs = before ++ sd :: after ∧ sub_code sd = "DE-BE".
Proof.
  destruct (resolved_code_comes_from_the_reference sample_db
              "Germany:Berlin" "DE-BE" eq_refl eq_refl)
    as (cc & Hcc & _ & Hsub).
  destruct (Hsub eq_refl) as (subs & before & sd & after & H1 & H2 & H3 & _).
  exists cc. split; [exact Hcc|]. by exists subs, before, sd, after.
Defined.

End resolver_more.

(** ** Further properties of the validators *)

Section validators_more.

(** *** The pattern *)

Lemma placeholders_cons_other (c : ascii) (s : string) :
  Ascii.eqb c "{" = false →
  Re.placeholders (String c s) = Re.placeholders s.
Proof.
  intros Hc. unfold Re.placeholders. simpl. by rewrite Hc.
Qed.

Lemma placeholders_skip (a s : string) :
  has_char "{" a = false →
  Re.placeholders (a +:+ s) = Re.placeholders s.
Proof.
  induction a as [|c a IH]; intros Ha; [done|].
  simpl in Ha. apply orb_false_iff in Ha as [Hc Ha].
  rewrite append_cons, (placeholders_cons_other _ _ Hc). by apply IH.
Qed.

(** X21: how a filter is scanned.  A filter without an opening brace has
    no placeholder.  In a filter that reads: a text without opening brace,
    "{", a text p without closing brace and newline, "}", and a rest, the
    first placeholder is p (which may itself contain opening braces) and
    the others are the placeholders of the rest. *)
Theorem placeholders_token_by_token (a p b : string) :
  has_char "{" a = false →
  Re.placeholders a = [] ∧
  (has_char "}" p = false → has_char Re.newline p = false →
     Re.placeholders (a +:+ "{" +:+ p +:+ "}" +:+ b)
     = p :: Re.placeholders b).
Proof.
  intros Ha. split.
  - rewrite <- (append_nil a). by rewrite (placeholders_skip _ _ Ha).
  - intros Hb Hn. rewrite (placeholders_skip _ _ Ha).
    change ("{" +:+ p +:+ "}" +:+ b) with (String "{" (p +:+ "}" +:+ b)).
    unfold Re.placeholders at 1. cbn [String.length Re.finditer_from].
    unfold Re.match_braces. cbn [Ascii.eqb Bool.eqb].
    rewrite (lazy_run_token _ _ Hb Hn). f_equal.
    apply finditer_from_fuel; [|done].
    rewrite append_length. change ("}" +:+ b) with (String "}" b). simpl. lia.
Qed.

Lemma placeholders_token_by_token_witness :
  Re.placeholders "highway" = [] ∧
  Re.placeholders "highway={a{b} and {c}" = "a{b" :: Re.placeholders " and {c}".
Proof.
  destruct (placeholders_token_by_token "highway=" "a{b" " and {c}" eq_refl)
    as [_ H2].
  destruct (placeholders_token_by_token "highway" "" "" eq_refl) as [H1 _].
  split; [exact H1|]. exact (H2 eq_refl eq_refl).
Defined.

(** *** [validate_road_types] *)

Lemma warning_elem (all : road_types) (w : string) :
  w ∈ (validate_road_types all).1 ↔
  ∃ road_type fs f p,
    (road_type, fs) ∈ all ∧ f ∈ all_filters fs ∧ p ∈ Re.placeholders f ∧
    Dict.contains p all = false ∧ w = unmapped_warning road_type p.
Proof.
  rewrite validate_road_types_run. cbn [fst].
  rewrite list_elem_of_In, in_flat_map. split.
  - intros ([road_type fs] & Hin & Hw). apply list_elem_of_In in Hin, Hw.
    apply list_elem_of_fmap in Hw as (p & -> & Hp).
    apply list_elem_of_filter in Hp as [Hc Hp].
    apply list_elem_of_In, in_flat_map in Hp as (f & Hf & Hp).
    apply list_elem_of_In in Hf, Hp. by exists road_type, fs, f, p.
  - intros (road_type & fs & f & p & Hin & Hf & Hp & Hc & ->).
    exists (road_type, fs). split; [by apply list_elem_of_In|].
    apply list_elem_of_In, list_elem_of_fmap_2, list_elem_of_filter.
    split; [done|]. apply list_elem_of_In, in_flat_map.
    exists f. split; by apply list_elem_of_In.
Qed.

(** X22: [validate_road_types] returns no warning exactly when every
    placeholder found in a present filter of a road type is itself a road
    type of the mapping. *)
Theorem no_warning_iff_placeholders_defined (all : road_types) :
  (validate_road_types all).1 = [] ↔
  ∀ road_type fs f p,
    (road_type, fs) ∈ all → f ∈ all_filters fs → p ∈ Re.placeholders f →
    Dict.contains p all = true.
Proof.
  split.
  - intros Hnil road_type fs f p Hin Hf Hp.
    destruct (Dict.contains p all) eqn:E; [done|].
    assert (unmapped_warning road_type p ∈ (validate_road_types all).1)
      as Hw.
    { apply warning_elem. by exists road_type, fs, f, p. }
    rewrite Hnil in Hw. by apply elem_of_nil in Hw.
  - intros Hall. apply elem_of_nil_inv. intros w Hw.
    apply warning_elem in Hw
      as (road_type & fs & f & p & Hin & Hf & Hp & Hc & _).
    rewrite (Hall _ _ _ _ Hin Hf Hp) in Hc. done.
Qed.

Lemma no_warning_iff_placeholders_defined_witness :
  Dict.contains "motorway" linked_types = true.
Proof.
  assert (H0 : (validate_road_types linked_types).1 = [])
    by (vm_compute; reflexivity).
  apply (proj1 (no_warning_iff_placeholders_defined linked_types) H0
           "link" [("filter", "{motorway} and link=yes")]
           "{motorway} and link=yes" "motorway").
  - apply list_elem_of_further, list_elem_of_here.
  - vm_compute. apply list_elem_of_here.
  - vm_compute. apply list_elem_of_here.
Defined.
(** *** [validate_road_types_in_speed_table] *)

Lemma check_entries_spec (defined : road_types) (country_code : string)
    (entries : list road_class) (warnings : list string) :
  foldl (check_road_class defined country_code) warnings entries
  = warnings
      ++ (unmapped_warning country_code <$> unmapped_names defined entries).
Proof.
  unfold unmapped_names.
  revert warnings. induction entries as [|rc entries IH]; intros warnings.
  - simpl. by rewrite app_nil_r.
  - cbn [foldl omap list_omap]. rewrite IH. unfold check_road_class.
    destruct (rc_name rc) as [road_type|]; [|done].
    rewrite filter_cons.
    destruct (Dict.contains road_type defined) eqn:E.
    + by rewrite decide_False.
    + rewrite decide_True by done. by rewrite fmap_cons, <- app_assoc.
Qed.

Lemma check_countries_spec (speeds : list (string * list road_class))
    (defined : road_types) (codes : list string) (warnings : list string) :
  foldl (check_country speeds defined) warnings codes
  = warnings
      ++ flat_map (λ code,
           unmapped_warning code
             <$> unmapped_names defined (default [] (Dict.get code speeds)))
           codes.
Proof.
  revert warnings. induction codes as [|code codes IH]; intros warnings.
  - simpl. by rewrite app_nil_r.
  - cbn [foldl flat_map]. rewrite IH. unfold check_country.
    destruct (Dict.get code speeds) as [entries|]; simpl.
    + by rewrite check_entries_spec, app_assoc.
    + done.
Qed.

Lemma dict_get_nodup {V} (d : list (string * V)) (k : string) (v : V) :
  NoDup d.*1 → (k, v) ∈ d → Dict.get k d = Some v.
Proof.
  induction d as [|[k' v'] d IH]; intros Hnd Hin.
  - by apply elem_of_nil in Hin.
  - cbn [fmap list_fmap fst] in Hnd. inversion_clear Hnd as [|? ? Hk Hnd'].
    simpl. apply elem_of_cons in Hin as [[= -> ->]|Hin].
    + by rewrite String.eqb_refl.
    + destruct (String.eqb_spec k' k) as [->|Hne]; [|by apply IH].
      exfalso. apply Hk. apply list_elem_of_fmap. by exists (k, v).
Qed.

(** X23: for a speed table whose codes are pairwise distinct,
    [validate_road_types_in_speed_table] goes through the countries and
    their entries in order and returns one warning
    "<code>: Unable to map '<name>'" per entry that has a name which is not
    a key of the road types; entries without a name never warn. *)
Theorem speed_table_check_lists_unmapped_names
    (speeds : list (string * list road_class)) (defined : road_types) :
  NoDup speeds.*1 →
  validate_road_types_in_speed_table speeds defined
  = flat_map (λ item,
      unmapped_warning item.1 <$> unmapped_names defined item.2) speeds.
Proof.
  intros Hnd. unfold validate_road_types_in_speed_table.
  rewrite check_countries_spec. cbn [app].
  assert (Hext : ∀ l, (∀ item, item ∈ l → Dict.get item.1 speeds = Some item.2) →
            flat_map (λ code,
              unmapped_warning code
                <$> unmapped_names defined (default [] (Dict.get code speeds)))
              l.*1
            = flat_map (λ item,
                unmapped_warning item.1 <$> unmapped_names defined item.2) l).
  { induction l as [|item l IH]; intros Hl; [done|].
    cbn [fmap list_fmap flat_map]. rewrite (Hl item) by apply list_elem_of_here.
    simpl. f_equal. apply IH. intros i Hi. apply Hl.
    by apply list_elem_of_further. }
  apply Hext. intros [k v] Hin. by apply dict_get_nodup.
Qed.

Lemma speed_table_check_lists_unmapped_names_witness :
  validate_road_types_in_speed_table sample_speeds sample_road_types
  = ["DE: Unable to map 'rural'"].
Proof.
  rewrite (speed_table_check_lists_unmapped_names sample_speeds
             sample_road_types).
  - reflexivity.
  - vm_compute. repeat constructor;
      (intros H; repeat (apply elem_of_cons in H as [H|H]; [discriminate H|]);
       by apply elem_of_nil in H).
Defined.

(** X24: [validate_road_types_in_speed_table] returns no warning exactly
    when every name carried by an entry of the speed table is a key of the
    road types. *)
Theorem no_warning_iff_names_defined
    (speeds : list (string * list road_class)) (defined : road_types) :
  validate_road_types_in_speed_table speeds defined = [] ↔
  ∀ code entries rc name,
    Dict.get code speeds = Some entries → rc ∈ entries →
    rc_name rc = Some name → Dict.contains name defined = true.
Proof.
  unfold validate_road_types_in_speed_table.
  rewrite check_countries_spec. cbn [app]. split.
  - intros Hnil code entries rc name Hget Hrc Hname.
    destruct (Dict.contains name defined) eqn:E; [done|].
    assert (unmapped_warning code name
            ∈ flat_map (λ code,
                unmapped_warning code
                  <$> unmapped_names defined
                        (default [] (Dict.get code speeds)))
                speeds.*1) as Hw.
    { apply list_elem_of_In, in_flat_map. exists code. split.
      - apply list_elem_of_In, list_elem_of_fmap.
        exists (code, entries). split; [done|]. by apply dict_get_elem.
      - rewrite Hget. apply list_elem_of_In, list_elem_of_fmap_2.
        apply list_elem_of_filter. split; [done|].
        apply list_elem_of_omap. by exists rc. }
    rewrite Hnil in Hw. by apply elem_of_nil in Hw.
  - intros Hall. apply elem_of_nil_inv. intros w Hw.
    apply list_elem_of_In, in_flat_map in Hw as (code & _ & Hw).
    apply list_elem_of_In, list_elem_of_fmap in Hw as (name & _ & Hn).
    apply list_elem_of_filter in Hn as [Hc Hn].
    apply list_elem_of_omap in Hn as (rc & Hrc & Hname).
    destruct (Dict.get code speeds) as [entries|] eqn:E;
      [|by apply elem_of_nil in Hrc].
    rewrite (Hall _ _ _ _ E Hrc Hname) in Hc. done.
Qed.

Lemma no_warning_iff_names_defined_witness :
  Dict.contains "motorway" sample_road_types = true.
Proof.
  assert (H0 : validate_road_types_in_speed_table
                 [("NL-BQ1", [RoadClass [] (Some "motorway")])]
                 sample_road_types = []) by (vm_compute; reflexivity).
  apply (proj1 (no_warning_iff_names_defined
                  [("NL-BQ1", [RoadClass [] (Some "motorway")])]
                  sample_road_types) H0
           "NL-BQ1" [RoadClass [] (Some "motorway")]
           (RoadClass [] (Some "motorway")) "motorway").
  - reflexivity.
  - apply list_elem_of_here.
  - reflexivity.
Defined.

End validators_more.

(** ** Data rows shorter than the header *)

Section short_rows.

Lemma speed_cells_succeed
    (speed_parse_func : string → option (list (string * string)))
    (cache : TableRowHelper.cache) (names : list string) (tds : list node)
    (cols : list nat) (road_tags : list (string * string)) :
  (∀ j, cache !! j = (λ cell, (1, cell)) <$> tds !! j) →
  Forall (λ i, (i < length tds)%nat ∧ (i < length names)%nat) cols →
  (∀ cell, cell ∈ tds → Dom.get_text "" cell ≠ "" →
     speed_parse_func (Dom.get_text "" cell) ≠ None) →
  ∃ tags, for_each (speed_cell speed_parse_func cache names) road_tags cols
          = Ok tags.
Proof.
  intros Hcache Hcols Hparse. revert road_tags.
  induction Hcols as [|i cols [Hi Hn] _ IH]; intros road_tags; [by eexists|].
  destruct (lookup_lt_is_Some_2 tds i Hi) as [cell Hcell].
  destruct (lookup_lt_is_Some_2 names i Hn) as [vt Hvt].
  assert (∃ tags', speed_cell speed_parse_func cache names road_tags i
                   = Ok tags') as [tags' Hc].
  { unfold speed_cell, TableRowHelper.get_td.
    rewrite Hcache, Hcell. cbn [fmap option_fmap option_map mbind res_bind].
    destruct (Dom.get_text "" cell) as [|c0 text] eqn:Et; cbn [truthy].
    - by eexists.
    - rewrite Hvt.
      destruct (speed_parse_func (String c0 text)) as [parsed|] eqn:Ep;
        [by eexists|].
      exfalso. apply (Hparse cell); [by eapply list_elem_of_lookup_2| |];
        by rewrite Et. }
  cbn [for_each]. rewrite Hc. cbn [mbind res_bind]. apply IH.
Qed.

(** X15: a data row must reach as far as the header.  In a speed table
    without spans, a row with fewer cells than there are column names,
    whose jurisdiction resolves and on whose cells the parser does not
    fail, makes the row loop raise [KeyError] for the first column that is
    missing. *)
Theorem short_speed_row_raises (db : pycountry)
    (speed_parse_func : string → option (list (string * string)))
    (st : speed_state) (row : node) (names : list string) (td0 : node)
    (country_code : string) :
  (∀ k e, td_cache st !! k = Some e → e.1 = 1) →
  Forall plain (Dom.find_all_named "td" row) →
  header_names (column_names st) (Dom.find_all_named "th" row) = Ok names →
  Dom.find_all_named "td" row !! 0%nat = Some td0 →
  get_country_code db (Dom.get_text "" td0) = Some country_code →
  country_code ≠ "" →
  (length (Dom.find_all_named "td" row) < length names)%nat →
  (∀ cell, cell ∈ Dom.find_all_named "td" row →
     Dom.get_text "" cell ≠ "" →
     speed_parse_func (Dom.get_text "" cell) ≠ None) →
  speed_row db speed_parse_func st row
  = Raise (KeyError (length (Dom.find_all_named "td" row))).
Proof.
  intros Hone Hplain Hh H0 Hcode Hne Hlen Hparse.
  destruct (set_tds_plain _ _ Hone Hplain) as (cache & Hset & Hcache).
  unfold speed_row. rewrite Hh. cbn [mbind res_bind].
  rewrite Hset. cbn [mbind res_bind].
  remember (Dom.find_all_named "td" row) as tds eqn:Etds.
  assert (Hmatch : ∀ a b : res speed_state,
            match tds with [] => a | _ :: _ => b end = b).
  { intros a b. by destruct tds. }
  rewrite Hmatch. clear Hmatch.
  assert (Hget : ∀ j, TableRowHelper.get_td cache j
                      = match tds !! j with
                        | Some cell => Ok cell
                        | None => Raise (KeyError j)
                        end).
  { intros j. unfold TableRowHelper.get_td. rewrite Hcache.
    by destruct (tds !! j). }
  rewrite (Hget 0%nat), H0. cbn [mbind res_bind]. rewrite Hcode.
  destruct country_code as [|c0 cc]; [done|].
  rewrite (Hget 1%nat).
  destruct (tds !! 1%nat) as [td1|] eqn:E1.
  - cbn [mbind res_bind].
    apply lookup_lt_Some in E1.
    assert (seq 2 (length names - 2)
            = seq 2 (length tds - 2) ++ length tds
                :: seq (S (length tds)) (length names - S (length tds)))
      as ->.
    { replace (length names - 2)%nat
        with ((length tds - 2) + S (length names - S (length tds)))%nat
        by lia.
      rewrite seq_app. simpl. do 3 f_equal; lia. }
    destruct (speed_cells_succeed speed_parse_func cache names tds
                (seq 2 (length tds - 2)) [] Hcache) as [tags Htags].
    { apply Forall_forall. intros i Hi. apply elem_of_seq in Hi. lia. }
    { done. }
    rewrite (for_each_raise _ _ _ _ _ _ (KeyError (length tds)) Htags); [done|].
    unfold speed_cell. rewrite (Hget (length tds)).
    by rewrite (lookup_ge_None_2 tds (length tds)).
  - cbn [mbind res_bind].
    apply lookup_ge_None in E1. apply lookup_lt_Some in H0.
    by replace (length tds) with 1%nat by lia.
Qed.

Lemma short_speed_row_raises_witness :
  speed_row sample_db picky_parser
    (SpeedState ["Country"; "Road type"; "(default)"; "hgv"] [] []
       TableRowHelper.init)
    (tr [td [] "Germany"; td [] "motorway"; td [] "130"])
  = Raise (KeyError 3).
Proof.
  apply (short_speed_row_raises sample_db picky_parser
           (SpeedState ["Country"; "Road type"; "(default)"; "hgv"] [] []
              TableRowHelper.init)
           (tr [td [] "Germany"; td [] "motorway"; td [] "130"])
           ["Country"; "Road type"; "(default)"; "hgv"]
           (td [] "Germany") "DE").
  - intros k e H. unfold TableRowHelper.init in H. simpl in H.
    by rewrite lookup_empty in H.
  - repeat constructor.
  - reflexivity.
  - reflexivity.
  - reflexivity.
  - discriminate.
  - vm_compute. lia.
  - intros cell Hin _. vm_compute in Hin.
    repeat (apply elem_of_cons in Hin as [->|Hin]; [discriminate|]).
    by apply elem_of_nil in Hin.
Defined.

End short_rows.

Section row_helper_witnesses.
Import TableRowHelper.

Lemma cursor_stops_at_first_free_column_witness :
  skip two_columns 0 = 2%nat ∧ is_Some (two_columns !! 1%nat).
Proof.
  split; [vm_compute; reflexivity|].
  apply (cursor_stops_at_first_free_column two_columns 0).
  vm_compute. lia.
Defined.

Lemma empty_row_only_expires_witness :
  ∃ c', set_tds two_columns [] = Ok c' ∧ c' !! 1%nat = Some (1, cell_B).
Proof.
  destruct (empty_row_only_expires two_columns 1)
    as (c' & Hset & _ & _ & Hdec).
  exists c'. split; [exact Hset|].
  apply (Hdec 2 cell_B); [vm_compute; reflexivity|lia].
Defined.

End row_helper_witnesses.
